(** * rkvst-simplehash: validation, canonicalisation and anchoring of events

    A shallow embedding of [rkvst_simplehash/v1.py] and a verification of
    the properties stated about it.

    - [Py]: the Python values the program handles (decoded JSON), its
      exceptions and the few built-in operations it uses.
    - [Bencode]: the bencoding of a value ([bencodepy.encode]).
    - [Sha256]: SHA-256 with the streaming interface of [hashlib].
    - [V1]: the functions of [v1.py] themselves.
    - [Examples]: sample services and events.
    - [Cli]: [get_auth_token] and [main], with the files and the token
      endpoint they use.
    - [Window]: notions about the events and the pages of a window.
    - [Equality]: equality of values, as [==] decides it, and
      [EqualityExamples]: sample events that are equal without being
      the same.
    - [MoreExamples]: sample command lines, files and services.
    - [Sha256Facts], [PyFacts], [BencodeFacts], [V1Facts], [LoopFacts],
      [EqualityFacts]: the lemmas, followed by the properties of the
      specification.
    - [MoreFacts], [CliFacts]: further lemmas, followed by further
      properties of the code. *)

From Stdlib Require Import List ZArith NArith Lia Bool PeanoNat.
From Stdlib Require Import Ascii String.
From Stdlib.Strings Require Import Byte.
From Stdlib Require Import Permutation.
From Stdlib Require Import DecimalString DecimalNat.
From Stdlib Require Import SpecFloat.
Import ListNotations.

Set Implicit Arguments.
Set Warnings "-register-all".

(* ================================================================== *)
(** ** Python values and exceptions *)

Module Py.

(** A decoded JSON document, as [response.json()] returns it.  A [str] is
    kept as the bytes of its UTF-8 encoding; a [dict] is an association
    list in insertion order (its keys are pairwise distinct in a
    well-formed dictionary, and JSON keys are always strings). *)
Inductive value : Type :=
| VNone
| VBool (b : bool)
| VInt (z : Z)
| VFloat (f : spec_float)
| VStr (s : string)
| VList (l : list value)
| VDict (d : list (string * value)).

Definition dict : Type := list (string * value).

(** Induction on a value, with the hypothesis for every member of a list
    and for every value of a dictionary. *)
Section ValueInduction.

Variable P : value -> Prop.
Hypothesis HNone : P VNone.
Hypothesis HBool : forall b, P (VBool b).
Hypothesis HInt : forall z, P (VInt z).
Hypothesis HFloat : forall f, P (VFloat f).
Hypothesis HStr : forall s, P (VStr s).
Hypothesis HList : forall l, Forall P l -> P (VList l).
Hypothesis HDict : forall d, Forall (fun kv => P (snd kv)) d -> P (VDict d).

Fixpoint value_induction (v : value) : P v :=
  match v with
  | VNone => HNone
  | VBool b => HBool b
  | VInt z => HInt z
  | VFloat f => HFloat f
  | VStr s => HStr s
  | VList l =>
      HList ((fix members (l : list value) : Forall P l :=
                match l with
                | [] => Forall_nil P
                | x :: rest => Forall_cons x (value_induction x) (members rest)
                end) l)
  | VDict d =>
      HDict ((fix entries (d : list (string * value))
                : Forall (fun kv => P (snd kv)) d :=
                match d with
                | [] => Forall_nil _
                | kv :: rest =>
                    Forall_cons kv (value_induction (snd kv)) (entries rest)
                end) d)
  end.

End ValueInduction.

(** The exceptions the program can end with.  The two exceptions of the
    module carry the values interpolated in their message instead of
    the formatted text.  [EncodingError] stands for the exception with
    which the encoder refuses a value of a type it does not encode. *)
Inductive exn : Type :=
| SimpleHashFieldMissing (identity : value) (missing : list string)
| SimpleHashPendingEventFound (identity : value) (status : value)
| SimpleHashFieldError
| KeyError (key : string)
| TypeError
| EncodingError.

Inductive result (A : Type) : Type :=
| Ok (a : A)
| Raise (e : exn).

Arguments Ok {A} a.
Arguments Raise {A} e.

Definition bind {A B : Type} (m : result A) (k : A -> result B) : result B :=
  match m with
  | Ok a => k a
  | Raise e => Raise e
  end.

(** [d.get(k)]: the first binding of [k]. *)
Fixpoint dict_get (k : string) (d : dict) : option value :=
  match d with
  | [] => None
  | (k', v) :: rest => if String.eqb k k' then Some v else dict_get k rest
  end.

(** [k in d]. *)
Definition dict_mem (k : string) (d : dict) : bool :=
  match dict_get k d with
  | Some _ => true
  | None => false
  end.

(** [d[k]], which raises [KeyError] on an absent key. *)
Definition subscript (d : dict) (k : string) : result value :=
  match dict_get k d with
  | Some v => Ok v
  | None => Raise (KeyError k)
  end.

Definition float_is_zero (f : spec_float) : bool :=
  match f with
  | S754_zero _ => true
  | _ => false
  end.

(** Truth value of an object, as [not x] and [if x] test it. *)
Definition truthy (v : value) : bool :=
  match v with
  | VNone => false
  | VBool b => b
  | VInt z => negb (Z.eqb z 0)
  | VFloat f => negb (float_is_zero f)
  | VStr s => negb (String.eqb s EmptyString)
  | VList l => match l with [] => false | _ => true end
  | VDict d => match d with [] => false | _ => true end
  end.

(** [v == s] for a string literal [s]: among decoded JSON values only
    the string with the same characters is equal to a string. *)
Definition eq_str (v : value) (s : string) : bool :=
  match v with
  | VStr s' => String.eqb s' s
  | _ => false
  end.

(** The characters of a [str], each as a one-character [str]: the UTF-8
    bytes are cut before every byte that is not a continuation byte
    (10xxxxxx). *)
Definition is_continuation (c : ascii) : bool :=
  let n := N_of_ascii c in (128 <=? n)%N && (n <? 192)%N.

Fixpoint chars_from (cur : string) (s : string) : list string :=
  match s with
  | EmptyString => [cur]
  | String c rest =>
      if is_continuation c then chars_from (cur ++ String c EmptyString) rest
      else cur :: chars_from (String c EmptyString) rest
  end.

Definition chars (s : string) : list string :=
  match s with
  | EmptyString => []
  | String c rest => chars_from (String c EmptyString) rest
  end.

(** [for x in v]: the items iteration yields, or [TypeError] for an
    object that is not iterable. *)
Definition iterate (v : value) : result (list value) :=
  match v with
  | VList l => Ok l
  | VDict d => Ok (map (fun kv => VStr (fst kv)) d)
  | VStr s => Ok (map VStr (chars s))
  | _ => Raise TypeError
  end.

End Py.

Export Py.

Notation "x <- m ;; k" := (bind m (fun x => k))
  (at level 61, m at next level, right associativity).

(* ================================================================== *)
(** ** Bencoding *)

Module Bencode.

Local Open Scope byte_scope.

(** The bytes of a [str] ([s.encode("utf-8")]): the representation of
    [VStr] is already the UTF-8 encoding. *)
Definition to_binary (s : string) : list byte := list_byte_of_string s.

(** [str(n).encode()] for a length and for an integer. *)
Definition decimal (n : nat) : list byte :=
  list_byte_of_string (NilEmpty.string_of_uint (Nat.to_uint n)).

Definition decimal_int (z : Z) : list byte :=
  list_byte_of_string (NilEmpty.string_of_int (Z.to_int z)).

(** Length-prefixed bytes: decimal length, [:], the bytes. *)
Definition encode_bytes (b : list byte) : list byte :=
  decimal (List.length b) ++ ":" :: b.

(** Integer: [i], decimal digits, [e]. *)
Definition encode_int (z : Z) : list byte :=
  "i" :: decimal_int z ++ ["e"].

(** Stable sort of the entries of a map by the raw bytes of the key. *)
Fixpoint insert_entry (e : string * list byte) (l : list (string * list byte))
  : list (string * list byte) :=
  match l with
  | [] => [e]
  | e' :: rest =>
      if String.leb (fst e) (fst e') then e :: l else e' :: insert_entry e rest
  end.

Definition sort_entries (l : list (string * list byte))
  : list (string * list byte) :=
  fold_right insert_entry [] l.

Definition encode_entry (e : string * list byte) : list byte :=
  encode_bytes (to_binary (fst e)) ++ snd e.

(** Modelled from the spec: [bencodepy.encode], an external dependency
    that is not part of the sources.  Section 4.2 gives the format: a map
    is a marker, the entries sorted by the raw bytes of the key, each key
    followed by its encoded value, and a terminator; text is
    length-prefixed; an integer is a marker, decimal digits and a
    terminator; a list is a marker, the elements in order and a
    terminator; a floating-point value is refused.  The markers are those
    of bencoding ([d], [l], [i], [e], [:]).  As in bencodepy a boolean is
    the integer 1 or 0 and [None] is refused like a float.  The values of
    a map are encoded before the entries are sorted: every refusal is the
    same exception, so the order in which values are visited cannot be
    observed. *)
Fixpoint encode (v : value) : result (list byte) :=
  match v with
  | VNone => Raise EncodingError
  | VFloat _ => Raise EncodingError
  | VBool b => Ok (encode_int (if b then 1 else 0)%Z)
  | VInt z => Ok (encode_int z)
  | VStr s => Ok (encode_bytes (to_binary s))
  | VList l =>
      body <- (fix items (l : list value) : result (list byte) :=
                 match l with
                 | [] => Ok []
                 | x :: rest =>
                     bx <- encode x ;; br <- items rest ;; Ok (bx ++ br)
                 end) l ;;
      Ok ("l" :: body ++ ["e"])
  | VDict d =>
      entries <- (fix values (d : list (string * value))
                    : result (list (string * list byte)) :=
                    match d with
                    | [] => Ok []
                    | (k, x) :: rest =>
                        bx <- encode x ;; br <- values rest ;;
                        Ok ((k, bx) :: br)
                    end) d ;;
      Ok ("d" :: flat_map encode_entry (sort_entries entries) ++ ["e"])
  end.

(** The two nested loops of [encode], named. *)
Fixpoint encode_items (l : list value) : result (list byte) :=
  match l with
  | [] => Ok []
  | x :: rest => bx <- encode x ;; br <- encode_items rest ;; Ok (bx ++ br)
  end.

Fixpoint encode_values (d : list (string * value))
  : result (list (string * list byte)) :=
  match d with
  | [] => Ok []
  | (k, x) :: rest =>
      bx <- encode x ;; br <- encode_values rest ;; Ok ((k, bx) :: br)
  end.

(** Values the encoder accepts: no [None] and no float at any depth. *)
Fixpoint encodable (v : value) : bool :=
  match v with
  | VNone => false
  | VFloat _ => false
  | VBool _ | VInt _ | VStr _ => true
  | VList l => forallb encodable l
  | VDict d =>
      (fix all (d : list (string * value)) : bool :=
         match d with
         | [] => true
         | (_, x) :: rest => encodable x && all rest
         end) d
  end.

(** A floating-point number occurs in the value, at any depth. *)
Fixpoint contains_float (v : value) : bool :=
  match v with
  | VFloat _ => true
  | VNone | VBool _ | VInt _ | VStr _ => false
  | VList l => existsb contains_float l
  | VDict d =>
      (fix any (d : list (string * value)) : bool :=
         match d with
         | [] => false
         | (_, x) :: rest => contains_float x || any rest
         end) d
  end.

(** The bytes are the encoding of some value. *)
Definition is_encoding (b : list byte) : Prop :=
  exists v, encode v = Ok b.

(** No other encoding starts a byte string that [b] starts: where an
    encoding ends is determined by the bytes read so far. *)
Definition prefix_free (b : list byte) : Prop :=
  forall b' r r', is_encoding b' -> b ++ r = b' ++ r' -> b = b' /\ r = r'.

Definition is_digit (b : byte) : bool :=
  let n := Byte.to_N b in (48 <=? n)%N && (n <=? 57)%N.

(** A digit or the minus sign. *)
Definition is_numeric (b : byte) : bool :=
  is_digit b || Byte.eqb b "-".

(** The key and the encoded value of each entry, as a flat sequence. *)
Definition entry_parts (es : list (string * list byte)) : list (list byte) :=
  flat_map (fun e => [encode_bytes (to_binary (fst e)); snd e]) es.

End Bencode.

(* ================================================================== *)
(** ** SHA-256 *)

Module Sha256.

Local Open Scope Z_scope.

(** [hashlib] is an external dependency that is not part of the sources.
    Section 4.3 names the function, SHA-256; the definitions follow
    FIPS 180-4 on 32-bit words kept in [Z] with the wrap-around written
    out. *)

(** A 32-bit word. *)
Definition wrap (x : Z) : Z := x mod 2 ^ 32.

Definition add32 (x y : Z) : Z := wrap (x + y).

Definition rotr (n x : Z) : Z :=
  Z.lor (Z.shiftr x n) (wrap (Z.shiftl x (32 - n))).

Definition not32 (x : Z) : Z := Z.lxor x (2 ^ 32 - 1).

Definition Ch (x y z : Z) : Z := Z.lxor (Z.land x y) (Z.land (not32 x) z).

Definition Maj (x y z : Z) : Z :=
  Z.lxor (Z.lxor (Z.land x y) (Z.land x z)) (Z.land y z).

Definition Sigma0 (x : Z) : Z :=
  Z.lxor (Z.lxor (rotr 2 x) (rotr 13 x)) (rotr 22 x).

Definition Sigma1 (x : Z) : Z :=
  Z.lxor (Z.lxor (rotr 6 x) (rotr 11 x)) (rotr 25 x).

Definition sigma0 (x : Z) : Z :=
  Z.lxor (Z.lxor (rotr 7 x) (rotr 18 x)) (Z.shiftr x 3).

Definition sigma1 (x : Z) : Z :=
  Z.lxor (Z.lxor (rotr 17 x) (rotr 19 x)) (Z.shiftr x 10).

(** The first sixty-four primes. *)
Definition primes : list Z :=
  [2; 3; 5; 7; 11; 13; 17; 19; 23; 29; 31; 37; 41; 43; 47; 53;
   59; 61; 67; 71; 73; 79; 83; 89; 97; 101; 103; 107; 109; 113; 127; 131;
   137; 139; 149; 151; 157; 163; 167; 173; 179; 181; 191; 193; 197; 199;
   211; 223; 227; 229; 233; 239; 241; 251; 257; 263; 269; 271; 277; 281;
   283; 293; 307; 311].

(** Integer cube root, one bit at a time from the top. *)
Fixpoint cbrt_bits (bits : nat) (n r : Z) : Z :=
  match bits with
  | O => r
  | S b =>
      let c := r + 2 ^ Z.of_nat b in
      cbrt_bits b n (if c * c * c <=? n then c else r)
  end.

Definition cbrt (n : Z) : Z := cbrt_bits 40 n 0.

(** The round constants: the first 32 bits of the fractional part of the
    cube root of each prime. *)
Definition K : list Z :=
  Eval vm_compute in map (fun p => wrap (cbrt (p * 2 ^ 96))) primes.

(** The initial hash value: the first 32 bits of the fractional part of
    the square root of each of the first eight primes. *)
Definition H0 : list Z :=
  Eval vm_compute in map (fun p => wrap (Z.sqrt (p * 2 ^ 64))) (firstn 8 primes).

Definition byte_val (b : byte) : Z := Z.of_N (Byte.to_N b).

Definition byte_of (z : Z) : byte :=
  match Byte.of_N (Z.to_N (z mod 256)) with
  | Some b => b
  | None => x00
  end.

(** Big-endian 32-bit words of a block. *)
Fixpoint words (bs : list byte) : list Z :=
  match bs with
  | b0 :: b1 :: b2 :: b3 :: rest =>
      (byte_val b0 * 2 ^ 24 + byte_val b1 * 2 ^ 16
       + byte_val b2 * 2 ^ 8 + byte_val b3) :: words rest
  | _ => []
  end.

(** The message schedule: [n] more words after those of [w]. *)
Fixpoint schedule (n : nat) (w : list Z) : list Z :=
  match n with
  | O => w
  | S n' =>
      let t := List.length w in
      let wt :=
        add32 (add32 (add32 (sigma1 (nth (t - 2) w 0)) (nth (t - 7) w 0))
                     (sigma0 (nth (t - 15) w 0)))
              (nth (t - 16) w 0) in
      schedule n' (w ++ [wt])
  end.

Record regs : Type := Regs
  { ra : Z; rb : Z; rc : Z; rd : Z; re : Z; rf : Z; rg : Z; rh : Z }.

Definition round (r : regs) (kw : Z * Z) : regs :=
  let t1 :=
    add32 (add32 (add32 (add32 r.(rh) (Sigma1 r.(re)))
                        (Ch r.(re) r.(rf) r.(rg)))
                 (fst kw))
          (snd kw) in
  let t2 := add32 (Sigma0 r.(ra)) (Maj r.(ra) r.(rb) r.(rc)) in
  Regs (add32 t1 t2) r.(ra) r.(rb) r.(rc) (add32 r.(rd) t1) r.(re) r.(rf) r.(rg).

Definition regs_of (h : list Z) : regs :=
  Regs (nth 0 h 0) (nth 1 h 0) (nth 2 h 0) (nth 3 h 0)
       (nth 4 h 0) (nth 5 h 0) (nth 6 h 0) (nth 7 h 0).

Definition list_of (r : regs) : list Z :=
  [r.(ra); r.(rb); r.(rc); r.(rd); r.(re); r.(rf); r.(rg); r.(rh)].

(** One 64-byte block folded into the intermediate hash value. *)
Definition compress (h : list Z) (block : list byte) : list Z :=
  let w := schedule 48 (words block) in
  let r := fold_left round (combine K w) (regs_of h) in
  map (fun p => add32 (fst p) (snd p)) (combine h (list_of r)).

(** The bytes of [z] on [n] bytes, most significant first. *)
Fixpoint big_endian (n : nat) (z : Z) : list byte :=
  match n with
  | O => []
  | S n' => big_endian n' (z / 256) ++ [byte_of z]
  end.

(** Padding of a message of [len] bytes: the byte 0x80, zero bytes up to
    56 modulo 64, and the length in bits on eight bytes. *)
Definition padding (len : nat) : list byte :=
  x80 :: repeat x00 (Z.to_nat ((55 - Z.of_nat len) mod 64))
      ++ big_endian 8 (8 * Z.of_nat len).

(** The first [n] blocks of 64 bytes. *)
Fixpoint blocks (n : nat) (bs : list byte) : list (list byte) :=
  match n with
  | O => []
  | S n' => firstn 64 bs :: blocks n' (skipn 64 bs)
  end.

(** Modelled from the spec: the hash function of section 4.3, SHA-256,
    applied to a whole message (the function itself lives in [hashlib],
    outside the sources): pad, cut into blocks, fold. *)
Definition sha256_digest (msg : list byte) : list Z :=
  let padded := msg ++ padding (List.length msg) in
  fold_left compress (blocks (List.length padded / 64) padded) H0.

Definition hex_digit (z : Z) : ascii :=
  nth (Z.to_nat (z mod 16))
      (list_ascii_of_string "0123456789abcdef") "0"%char.

Fixpoint hex_word (n : nat) (z : Z) : string :=
  match n with
  | O => EmptyString
  | S n' => (hex_word n' (z / 16) ++ String (hex_digit z) EmptyString)%string
  end.

Definition hex (h : list Z) : string :=
  fold_right (fun w s => (hex_word 8 w ++ s)%string) EmptyString h.

(** Modelled from the spec: the hash context of section 4.3
    ([hashlib.sha256], outside the sources), created once, updated
    chunk by chunk and read at the end.  It holds the intermediate hash
    value, the bytes not yet forming a block and the number of bytes
    fed so far. *)
Record hasher : Type := Hasher
  { state : list Z; buffer : list byte; count : nat }.

(** [sha256()] *)
Definition sha256 : hasher := Hasher H0 [] 0.

(** Bytes are copied to the buffer, which is compressed when full. *)
Fixpoint feed (st : list Z) (buf : list byte) (data : list byte)
  : list Z * list byte :=
  match data with
  | [] => (st, buf)
  | b :: rest =>
      let buf' := buf ++ [b] in
      if Nat.eqb (List.length buf') 64 then feed (compress st buf') [] rest
      else feed st buf' rest
  end.

(** [h.update(data)] *)
Definition update (h : hasher) (data : list byte) : hasher :=
  let (st, buf) := feed h.(state) h.(buffer) data in
  Hasher st buf (h.(count) + List.length data).

(** [h.digest()], as words: the buffer is padded and compressed in a copy
    of the context. *)
Definition digest (h : hasher) : list Z :=
  let tail := h.(buffer) ++ padding h.(count) in
  fold_left compress (blocks (List.length tail / 64) tail) h.(state).

(** [h.hexdigest()] *)
Definition hexdigest (h : hasher) : string := hex (digest h).

End Sha256.

(* ================================================================== *)
(** ** The module [v1.py] *)

Module V1.

Import Bencode Sha256.

Local Open Scope string_scope.

(** The set literal [V1_FIELDS], its members in the order of the source.
    A set of field names is represented by the list of its members in
    this order. *)
Definition V1_FIELDS : list string :=
  [ "identity";
    "asset_identity";
    "event_attributes";
    "asset_attributes";
    "operation";
    "behaviour";
    "timestamp_declared";
    "timestamp_accepted";
    "timestamp_committed";
    "principal_accepted";
    "principal_declared";
    "confirmation_status";
    "from";
    "tenant_identity" ].

(** [V1_FIELDS.difference(event)] for a dictionary: the required names
    that are not keys of the event. *)
Definition difference (fields : list string) (event : dict) : list string :=
  filter (fun k => negb (dict_mem k event)) fields.

(** [__check_event(event)].  Both messages are f-strings whose
    interpolated expressions are evaluated, left to right, before the
    exception is built.  An event that is not a dictionary ends in
    [TypeError], either in [difference] (not iterable, or an unhashable
    item) or in the first subscript with a string. *)
Definition __check_event (event : value) : result unit :=
  match event with
  | VDict d =>
      let missing := difference V1_FIELDS d in
      match missing with
      | _ :: _ =>
          identity <- subscript d "identity" ;;
          Raise (SimpleHashFieldMissing identity missing)
      | [] =>
          status <- subscript d "confirmation_status" ;;
          if negb (eq_str status "FAILED" || eq_str status "CONFIRMED") then
            identity <- subscript d "identity" ;;
            status' <- subscript d "confirmation_status" ;;
            Raise (SimpleHashPendingEventFound identity status')
          else Ok tt
      end
  | _ => Raise TypeError
  end.

(** The comprehension of [redact_event]: it visits [V1_FIELDS] in the
    iteration order [order] of the set, which the interpreter chooses
    (string hashing is randomised per process), and inserts the entries
    in that order; [event[k]] raises [KeyError] on an absent key. *)
Fixpoint project (order : list string) (event : dict) : result dict :=
  match order with
  | [] => Ok []
  | k :: rest =>
      v <- subscript event k ;;
      d <- project rest event ;;
      Ok ((k, v) :: d)
  end.

(** [redact_event(event)] *)
Definition redact_event (order : list string) (event : value) : result value :=
  match event with
  | VDict d => r <- project order d ;; Ok (VDict r)
  | _ => Raise TypeError
  end.

(** A call of [requests.get]: what is sent. *)
Record request : Type := Request
  { url : string; params : dict; headers : dict }.

(** What driving a generator to its end produces, in order: the requests
    it makes with the decoded responses, the events it yields, and how
    it ends.  [Running] stands for a loop that has not ended within the
    number of iterations considered. *)
Inductive gen : Type :=
| Get (rq : request) (data : value) (rest : gen)
| Yield (event : value) (rest : gen)
| Throw (e : exn)
| Return
| Running.

Definition yield_all (events : list value) (rest : gen) : gen :=
  fold_right Yield rest events.

Section Service.

(** The remote service: [http_get st rq] is the state of the service
    after the request and the decoded body of the response,
    [requests.get(url, params=params, headers=headers).json()]. *)
Variable St : Type.
Variable http_get : St -> request -> St * value.

(** The [while True] loop of [list_events], at most [fuel] pages. *)
Fixpoint list_events_loop (fuel : nat) (st : St) (url : string)
  (params headers : dict) : gen :=
  match fuel with
  | O => Running
  | S fuel' =>
      let rq := Request url params headers in
      let (st', data) := http_get st rq in
      Get rq data
        match data with
        | VDict d =>
            match subscript d "events" with
            | Raise _ => Throw SimpleHashFieldError
            | Ok events =>
                match iterate events with
                | Raise e => Throw e
                | Ok items =>
                    yield_all items
                      (let page_token :=
                         match dict_get "next_page_token" d with
                         | Some t => t
                         | None => VNone
                         end in
                       if negb (truthy page_token) then Return
                       else list_events_loop fuel' st' url
                              [("page_token", page_token)] headers)
                end
            end
        | _ => Throw TypeError
        end
  end.

(** [list_events(start_time, end_time, fqdn, auth_token)] *)
Definition list_events (fuel : nat) (st : St)
  (start_time end_time fqdn auth_token : string) : gen :=
  let url := "https://" ++ fqdn ++ "/archivist/v2/assets/-/events" in
  let params :=
    [ ("proof_mechanism", VStr "SIMPLE_HASH");
      ("timestamp_accepted_since", VStr start_time);
      ("timestamp_accepted_before", VStr end_time);
      ("page_size", VInt 10);
      ("order_by", VStr "SIMPLEHASHV1") ] in
  let headers :=
    [ ("Content-Type", VStr "application/json");
      ("Authorization", VStr ("Bearer " ++ auth_token)) ] in
  list_events_loop fuel st url params headers.

End Service.

(** The body of the [for] loop of [anchor_events]: the canonical bytes of
    one event. *)
Definition canonical (order : list string) (event : value)
  : result (list byte) :=
  _ <- __check_event event ;;
  redacted_event <- redact_event order event ;;
  encode redacted_event.

(** The bytes fed to the context for an event, when validation,
    redaction and encoding succeed. *)
Definition chunk_of (order : list string) (event : value) (c : list byte)
  : Prop :=
  canonical order event = Ok c.

(** How the [for] loop ends. *)
Inductive ending : Type :=
| Exhausted
| Raised (e : exn)
| Unfinished.

(** The [for] loop of [anchor_events] over a generator: the context when
    the loop ends and how it ends.  The generator is not resumed after an
    exception. *)
Fixpoint anchor_loop (order : list string) (hasher : Sha256.hasher) (g : gen)
  : Sha256.hasher * ending :=
  match g with
  | Get _ _ rest => anchor_loop order hasher rest
  | Yield event rest =>
      match canonical order event with
      | Ok bencoded_event => anchor_loop order (update hasher bencoded_event) rest
      | Raise e => (hasher, Raised e)
      end
  | Throw e => (hasher, Raised e)
  | Return => (hasher, Exhausted)
  | Running => (hasher, Unfinished)
  end.

(** What [anchor_events] does with a generator: [None] while the loop has
    not ended, else the digest returned or the exception raised. *)
Definition anchor (order : list string) (g : gen) : option (result string) :=
  match anchor_loop order sha256 g with
  | (h, Exhausted) => Some (Ok (hexdigest h))
  | (_, Raised e) => Some (Raise e)
  | (_, Unfinished) => None
  end.

(** [anchor_events(start_time, end_time, fqdn, auth_token)] against a
    service in state [st]. *)
Definition anchor_events (order : list string) (St : Type)
  (http_get : St -> request -> St * value) (fuel : nat) (st : St)
  (start_time end_time fqdn auth_token : string) : option (result string) :=
  anchor order (list_events http_get fuel st start_time end_time fqdn auth_token).

(** *** Notions used in the statements *)

(** The events a generator yields, and the requests it makes. *)
Fixpoint events_of (g : gen) : list value :=
  match g with
  | Get _ _ rest => events_of rest
  | Yield event rest => event :: events_of rest
  | _ => []
  end.

Fixpoint exchanges_of (g : gen) : list (request * value) :=
  match g with
  | Get rq data rest => (rq, data) :: exchanges_of rest
  | Yield _ rest => exchanges_of rest
  | _ => []
  end.

(** [data.get("next_page_token")] of a response. *)
Definition next_page_token (data : value) : value :=
  match data with
  | VDict d => match dict_get "next_page_token" d with
               | Some t => t
               | None => VNone
               end
  | _ => VNone
  end.

(** Each request of [xs] carries, as its only query parameter, the token
    of the response before it, [prev] being the response before the
    first. *)
Fixpoint chained (prev : value) (xs : list (request * value)) : Prop :=
  match xs with
  | [] => True
  | (rq, data) :: rest =>
      params rq = [("page_token", next_page_token prev)]
      /\ truthy (next_page_token prev) = true
      /\ chained data rest
  end.

(** The generator ends normally (it is exhausted after its last event). *)
Fixpoint returns (g : gen) : bool :=
  match g with
  | Get _ _ rest => returns rest
  | Yield _ rest => returns rest
  | Return => true
  | _ => false
  end.

(** The event is a dictionary with every required field. *)
Definition has_fields (event : value) : bool :=
  match event with
  | VDict d => forallb (fun k => dict_mem k d) V1_FIELDS
  | _ => false
  end.

(** The value of a field of an event. *)
Definition field (k : string) (event : value) : option value :=
  match event with
  | VDict d => dict_get k d
  | _ => None
  end.

(** The confirmation status is [CONFIRMED] or [FAILED]. *)
Definition terminal (event : value) : bool :=
  match field "confirmation_status" event with
  | Some status => eq_str status "CONFIRMED" || eq_str status "FAILED"
  | None => false
  end.

(** Two events agree on the required fields. *)
Definition agree (e1 e2 : value) : Prop :=
  forall k, In k V1_FIELDS -> field k e1 = field k e2.

(** Every required field is present and holds a value the encoder
    accepts: no [None] and no float at any depth. *)
Definition fields_encodable (event : value) : bool :=
  forallb (fun k => match field k event with
                    | Some v => encodable v
                    | None => false
                    end) V1_FIELDS.

(** Some required field holds a floating-point number, at any depth. *)
Definition float_in_fields (event : value) : bool :=
  existsb (fun k => match field k event with
                    | Some v => contains_float v
                    | None => false
                    end) V1_FIELDS.

(** The projection of an event onto exactly the required fields, listed
    in the order of the source. *)
Definition projection (event : value) : value :=
  VDict (map (fun k => (k, match field k event with
                           | Some v => v
                           | None => VNone
                           end)) V1_FIELDS).

End V1.

(* ================================================================== *)
(** ** Sample services and events *)

Module Examples.

Import V1.

Local Open Scope string_scope.

(** A service that answers every request with one page holding [events]
    and no continuation token. *)
Definition single_page (events : list value) (st : unit) (rq : request)
  : unit * value :=
  (tt, VDict [("events", VList events)]).

(** A service with three pages, the state being the number of requests
    answered so far. *)
Definition three_pages (first second third : list value) (st : nat)
  (rq : request) : nat * value :=
  (S st,
   match st with
   | 0 => VDict [("events", VList first); ("next_page_token", VStr "page-2")]
   | 1 => VDict [("events", VList second); ("next_page_token", VStr "page-3")]
   | _ => VDict [("events", VList third)]
   end).

(** An event with the fourteen fields. *)
Definition event (identity status : string) (attributes : value) : value :=
  VDict
    [ ("identity", VStr identity);
      ("asset_identity", VStr "assets/6a951b62");
      ("event_attributes", attributes);
      ("asset_attributes", VDict [("arc_display_name", VStr "door")]);
      ("operation", VStr "Record");
      ("behaviour", VStr "RecordEvidence");
      ("timestamp_declared", VStr "2023-02-23T10:55:16Z");
      ("timestamp_accepted", VStr "2023-02-23T10:55:16Z");
      ("timestamp_committed", VStr "2023-02-23T10:55:17Z");
      ("principal_accepted", VDict [("issuer", VStr "idp"); ("subject", VStr "s1")]);
      ("principal_declared", VDict [("issuer", VStr "idp"); ("subject", VStr "s1")]);
      ("confirmation_status", VStr status);
      ("from", VStr "0xf8dfc073650503aed429e414bE7e972f8F095e70");
      ("tenant_identity", VStr "tenant/7dfaa5ef") ].

Definition confirmed : value :=
  event "assets/6a951b62/events/1" "CONFIRMED"
        (VDict [("arc_display_type", VStr "open"); ("tags", VList [VStr "a"; VStr "b"])]).

Definition failed : value :=
  event "assets/6a951b62/events/2" "FAILED" (VDict []).

Definition pending : value :=
  event "assets/6a951b62/events/3" "PENDING" (VDict []).

(** An event whose attributes hold the number 1.5. *)
Definition with_float : value :=
  event "assets/6a951b62/events/4" "CONFIRMED"
        (VDict [("weight", VFloat (S754_finite false 3 (-1)))]).

(** The entries of an event in the opposite order, after a key that is
    not a required field. *)
Definition reordered (ev : value) : value :=
  match ev with
  | VDict d => VDict (("block_number", VInt 7) :: rev d)
  | _ => ev
  end.

(** [list_events] and [anchor_events] against a service with a single
    page of [events]. *)
Definition source (events : list value) : gen :=
  list_events (single_page events) 1 tt
    "2023-02-23T00:00:00Z" "2023-02-24T00:00:00Z" "app.rkvst.io" "token".

Definition run (order : list string) (events : list value)
  : option (result string) :=
  anchor_events order (single_page events) 1 tt
    "2023-02-23T00:00:00Z" "2023-02-24T00:00:00Z" "app.rkvst.io" "token".

(** The canonical bytes of a sample event. *)
Definition bytes_of (ev : value) : list byte :=
  match canonical V1_FIELDS ev with
  | Ok c => c
  | Raise _ => []
  end.

End Examples.

(* ================================================================== *)
(** ** The command line: [get_auth_token] and [main] *)

Module Cli.

Import V1.

Local Open Scope string_scope.

(** The character [\n]. *)
Definition newline : ascii := ascii_of_nat 10.

(** [s.strip('\n')]: the newlines at both ends are removed, those inside
    are kept. *)
Fixpoint lstrip (s : string) : string :=
  match s with
  | EmptyString => EmptyString
  | String c rest => if Ascii.eqb c newline then lstrip rest else s
  end.

Fixpoint rstrip (s : string) : string :=
  match s with
  | EmptyString => EmptyString
  | String c rest =>
      match rstrip rest with
      | EmptyString =>
          if Ascii.eqb c newline then EmptyString else String c EmptyString
      | kept => String c kept
      end
  end.

Definition strip (s : string) : string := rstrip (lstrip s).

(** A run of [n] newlines. *)
Fixpoint newlines (n : nat) : string :=
  match n with
  | O => EmptyString
  | S n' => String newline (newlines n')
  end.

(** A call of [requests.post]: what is sent. *)
Record post_request : Type := Post
  { post_url : string; post_data : dict }.

(** What [main] does to the outside, in order: a file opened and read,
    the request for a token, a call of [anchor_events] with a token, a
    line printed. *)
Inductive effect : Type :=
| Opened (path : string)
| Posted (rq : post_request)
| Anchored (auth_token : string)
| Printed (line : string).

(** How [main] ends: it returns, or an exception leaves it, or the loop
    of [list_events] has not ended within the number of iterations
    considered.  [FileError] stands for the exception of an [open] or a
    [read] that fails, [Uncaught] for an exception raised in
    [get_auth_token] or [anchor_events]. *)
Inductive main_exn : Type :=
| SimpleHashClientAuthError
| FileError (path : string)
| Uncaught (e : exn).

Inductive exit : Type :=
| Returned
| Failed (e : main_exn)
| NotEnded.

(** The namespace [parser.parse_args()] returns, for a command line that
    gives both bounds of the window (as strings, as the docstring of
    [list_events] has them): an option that was not given is [None],
    except [--fqdn], whose default is applied in [main] below. *)
Record namespace : Type := Namespace
  { start_time : string;
    end_time : string;
    fqdn : option string;
    auth_token_file : option string;
    client_id : option string;
    client_secret_file : option string }.

Section World.

(** The iteration order of the set [V1_FIELDS] in the interpreter. *)
Variable order : list string.

(** The remote service, as in [V1], with its answer to a [POST]:
    [requests.post(url, data=params).json()]. *)
Variable St : Type.
Variable http_get : St -> request -> St * value.
Variable http_post : St -> post_request -> St * value.

(** The files: [open(path).read()], [None] when it fails. *)
Variable read_file : string -> option string.

(** [str(x)] for an object that is not a [str]. *)
Variable str_other : value -> string.

(** An object interpolated in an f-string. *)
Definition format (v : value) : string :=
  match v with
  | VStr s => s
  | _ => str_other v
  end.

(** [get_auth_token(fqdn, client_id, client_secret)]: the state of the
    service afterwards, the request made, and the token returned or the
    exception raised. *)
Definition get_auth_token (st : St) (fqdn client_id client_secret : string)
  : St * post_request * result value :=
  let url := "https://" ++ fqdn ++ "/archivist/iam/v1/appidp/token" in
  let params :=
    [ ("grant_type", VStr "client_credentials");
      ("client_id", VStr client_id);
      ("client_secret", VStr client_secret) ] in
  let rq := Post url params in
  let (st', data) := http_post st rq in
  (st', rq,
   match data with
   | VDict d => subscript d "access_token"
   | _ => Raise TypeError
   end).

(** The end of both branches of [main]: [anchor_events] with the token,
    then [print(anchor)]. *)
Definition anchor_and_print (fuel : nat) (st : St) (args : namespace)
  (host auth_token : string) : list effect * exit :=
  match anchor_events order http_get fuel st
          args.(start_time) args.(end_time) host auth_token with
  | Some (Ok anchor) => ([Anchored auth_token; Printed anchor], Returned)
  | Some (Raise e) => ([Anchored auth_token], Failed (Uncaught e))
  | None => ([Anchored auth_token], NotEnded)
  end.

(** [if args.auth_token_file:] holds for a path that is not empty. *)
Definition given (path : option string) : option string :=
  match path with
  | Some p => if String.eqb p "" then None else Some p
  | None => None
  end.

(** [main()], on the namespace parsed from the command line. *)
Definition main (fuel : nat) (st : St) (args : namespace)
  : list effect * exit :=
  let host :=
    match args.(fqdn) with
    | Some f => f
    | None => "app.rkvst.io"
    end in
  match given args.(auth_token_file) with
  | Some path =>
      match read_file path with
      | None => ([Opened path], Failed (FileError path))
      | Some text =>
          let auth_token := strip text in
          let (effects, how) := anchor_and_print fuel st args host auth_token in
          (Opened path :: effects, how)
      end
  | None =>
      match args.(client_id), args.(client_secret_file) with
      | Some id, Some path =>
          match read_file path with
          | None => ([Opened path], Failed (FileError path))
          | Some text =>
              let client_secret := strip text in
              let '(st', rq, token) := get_auth_token st host id client_secret in
              match token with
              | Raise e => ([Opened path; Posted rq], Failed (Uncaught e))
              | Ok auth_token =>
                  let (effects, how) :=
                    anchor_and_print fuel st' args host (format auth_token) in
                  (Opened path :: Posted rq :: effects, how)
              end
          end
      | _, _ => ([], Failed SimpleHashClientAuthError)
      end
  end.

End World.

End Cli.

(* ================================================================== *)
(** ** Notions about a window of events *)

Module Window.

Import Sha256 V1.

Local Open Scope string_scope.

(** How a generator ends when it is driven to its end. *)
Fixpoint outcome_of (g : gen) : ending :=
  match g with
  | Get _ _ rest => outcome_of rest
  | Yield _ rest => outcome_of rest
  | Throw e => Raised e
  | Return => Exhausted
  | Running => Unfinished
  end.

(** The loop of [anchor_events] on a list of events followed by the way
    their source ends. *)
Fixpoint consume (order : list string) (hasher : Sha256.hasher)
  (events : list value) (last : ending) : Sha256.hasher * ending :=
  match events with
  | [] => (hasher, last)
  | ev :: rest =>
      match canonical order ev with
      | Ok c => consume order (update hasher c) rest last
      | Raise e => (hasher, Raised e)
      end
  end.

(** The events a response holds: the items of its [events] entry, none
    when the response is not a dictionary with an iterable entry. *)
Definition page_items (data : value) : list value :=
  match data with
  | VDict d =>
      match dict_get "events" d with
      | Some events =>
          match iterate events with
          | Ok items => items
          | Raise _ => []
          end
      | None => []
      end
  | _ => []
  end.

(** The response is a dictionary whose [events] entry can be iterated. *)
Definition well_formed (data : value) : Prop :=
  exists d events items,
    data = VDict d /\ dict_get "events" d = Some events
    /\ iterate events = Ok items.

(** The keys of a dictionary, in insertion order. *)
Definition keys (d : dict) : list string := map fst d.

(** The body of the loop of [anchor_events] succeeds on the event. *)
Definition accepted (order : list string) (ev : value) : bool :=
  match canonical order ev with
  | Ok _ => true
  | Raise _ => false
  end.

End Window.

(* ================================================================== *)
(** ** Equality of values *)

Module Equality.

Import Bencode V1.

(** A number as [==] compares it across [bool], [int] and [float]: the
    exact value [m * 2 ^ e], an infinity, or not a number. *)
Inductive number : Type :=
| Finite (m e : Z)
| Infinite (negative : bool)
| NotANumber.

Definition number_of (v : value) : option number :=
  match v with
  | VBool b => Some (Finite (if b then 1 else 0)%Z 0%Z)
  | VInt z => Some (Finite z 0%Z)
  | VFloat (S754_zero _) => Some (Finite 0%Z 0%Z)
  | VFloat (S754_finite s m e) =>
      Some (Finite (if s then Z.neg m else Z.pos m) e)
  | VFloat (S754_infinity s) => Some (Infinite s)
  | VFloat S754_nan => Some NotANumber
  | _ => None
  end.

(** Numbers are compared by value, exactly: [True == 1], [1 == 1.0],
    [0.0 == -0.0], and a NaN is equal to nothing. *)
Definition eq_number (a b : number) : bool :=
  match a, b with
  | Finite m1 e1, Finite m2 e2 =>
      if (e1 <=? e2)%Z then (m1 =? m2 * 2 ^ (e2 - e1))%Z
      else (m1 * 2 ^ (e1 - e2) =? m2)%Z
  | Infinite s1, Infinite s2 => Bool.eqb s1 s2
  | _, _ => false
  end.

(** [v1 == v2] on decoded JSON values.  [None] is equal to [None] only, a
    string to the same string, numbers by value; lists are equal when
    they have the same length and equal members in order; dictionaries
    are equal when they have the same number of entries and every key of
    the first is bound in the second to an equal value, whatever the
    order in which the keys were inserted. *)
Fixpoint py_eq (v1 v2 : value) : bool :=
  match v1 with
  | VNone => match v2 with VNone => true | _ => false end
  | VBool _ | VInt _ | VFloat _ =>
      match number_of v1, number_of v2 with
      | Some a, Some b => eq_number a b
      | _, _ => false
      end
  | VStr s => eq_str v2 s
  | VList l1 =>
      match v2 with
      | VList l2 =>
          (fix members (l1 l2 : list value) : bool :=
             match l1, l2 with
             | [], [] => true
             | x :: r1, y :: r2 => py_eq x y && members r1 r2
             | _, _ => false
             end) l1 l2
      | _ => false
      end
  | VDict d1 =>
      match v2 with
      | VDict d2 =>
          Nat.eqb (List.length d1) (List.length d2)
          && (fix entries (d1 : list (string * value)) : bool :=
                match d1 with
                | [] => true
                | (k, x) :: rest =>
                    match dict_get k d2 with
                    | Some y => py_eq x y
                    | None => false
                    end && entries rest
                end) d1
      | _ => false
      end
  end.









End Equality.

(* ================================================================== *)
(** ** Sample events with nested dictionaries and numbers *)

Module EqualityExamples.

Import V1 Examples.

Local Open Scope string_scope.





End EqualityExamples.

(* ================================================================== *)
(** ** Sample command lines, files and services *)

Module MoreExamples.

Import V1 Examples Cli.

Local Open Scope string_scope.

(** The entries of a sample event. *)
Definition entries_of (ev : value) : dict :=
  match ev with
  | VDict d => d
  | _ => []
  end.

(** The redacted form of a sample event. *)
Definition redacted (ev : value) : value :=
  match redact_event V1_FIELDS ev with
  | Ok r => r
  | Raise _ => VNone
  end.

(** A service whose second response has no [events] entry. *)
Definition broken_second_page (st : nat) (rq : request) : nat * value :=
  (S st,
   match st with
   | 0 => VDict [("events", VList [confirmed]);
                 ("next_page_token", VStr "page-2")]
   | _ => VDict [("error", VStr "gone")]
   end).

(** A token endpoint that grants a token, and one that refuses. *)
Definition granting (st : unit) (rq : post_request) : unit * value :=
  (tt, VDict [("access_token", VStr "granted"); ("expires_in", VInt 3600)]).

Definition refusing (st : unit) (rq : post_request) : unit * value :=
  (tt, VDict [("error", VStr "invalid_client")]).

(** Files: a token file and a secret file, each ending with a newline,
    and the same files without it. *)
Definition files (path : string) : option string :=
  if String.eqb path "token.txt" then Some ("from-file" ++ newlines 1)
  else if String.eqb path "secret.txt" then Some ("s3cret" ++ newlines 1)
  else None.

Definition bare_files (path : string) : option string :=
  if String.eqb path "token.txt" then Some "from-file"
  else if String.eqb path "secret.txt" then Some "s3cret"
  else None.

Definition no_str (v : value) : string := "".

(** Command lines: with a token file (and client options besides), with
    client credentials only, with a client id only. *)
Definition with_token_file : namespace :=
  Namespace "2023-02-23T00:00:00Z" "2023-02-24T00:00:00Z" None
            (Some "token.txt") (Some "client") (Some "secret.txt").

Definition with_credentials : namespace :=
  Namespace "2023-02-23T00:00:00Z" "2023-02-24T00:00:00Z" None
            None (Some "client") (Some "secret.txt").

(** A service whose first page holds a PENDING event and a token, and
    whose later responses are errors. *)
Definition pending_then_gone (st : nat) (rq : request) : nat * value :=
  (S st,
   match st with
   | 0 => VDict [("events", VList [confirmed; pending]);
                 ("next_page_token", VStr "page-2")]
   | _ => VDict [("error", VStr "gone")]
   end).

(** [list_events] over the sample window against a service. *)
Definition window (http_get : nat -> request -> nat * value) : gen :=
  list_events http_get 5 0
    "2023-02-23T00:00:00Z" "2023-02-24T00:00:00Z" "app.rkvst.io" "token".

Definition first_exchange (http_get : nat -> request -> nat * value)
  : request * value :=
  hd (Request "" [] [], VNone) (exchanges_of (window http_get)).

Definition later_exchanges (http_get : nat -> request -> nat * value)
  : list (request * value) :=
  tl (exchanges_of (window http_get)).

End MoreExamples.

(* ================================================================== *)
(** ** Streaming through one context *)

Module Sha256Facts.

Import Sha256.

Lemma feed_app (a b : list byte) : forall st buf,
  feed st buf (a ++ b) = let (st', buf') := feed st buf a in feed st' buf' b.
Proof.
  induction a as [|x a IH]; intros st buf; simpl; [reflexivity|].
  destruct (Nat.eqb (List.length (buf ++ [x])) 64); apply IH.
Qed.

(** Feeding chunk after chunk is feeding their concatenation. *)
Lemma fold_update (chunks : list (list byte)) : forall h,
  fold_left update chunks h =
  let (st, buf) := feed (state h) (buffer h) (List.concat chunks) in
  Hasher st buf (count h + List.length (List.concat chunks)).
Proof.
  induction chunks as [|c chunks IH]; intros h; simpl.
  - destruct h; simpl. f_equal. lia.
  - rewrite IH. unfold update. rewrite feed_app.
    destruct (feed (state h) (buffer h) c) as [st1 buf1]; simpl.
    destruct (feed st1 buf1 (List.concat chunks)) as [st2 buf2].
    f_equal. rewrite length_app. lia.
Qed.

Lemma blocks_app (q m : nat) : forall a b : list byte,
  List.length a = 64 * q ->
  blocks (q + m) (a ++ b) = blocks q a ++ blocks m b.
Proof.
  induction q as [|q IH]; intros a b Ha.
  - destruct a; [reflexivity | discriminate].
  - cbn [Nat.add blocks app].
    rewrite firstn_app, skipn_app.
    replace (64 - List.length a) with 0 by lia.
    rewrite firstn_O, skipn_O, app_nil_r.
    rewrite IH by (rewrite length_skipn; lia).
    reflexivity.
Qed.

Lemma blocks_prefix (q : nat) (a b : list byte) :
  List.length a = 64 * q -> blocks q (a ++ b) = blocks q a.
Proof.
  intros Ha. rewrite <- (Nat.add_0_r q) at 1.
  rewrite blocks_app by assumption. apply app_nil_r.
Qed.

(** What the context holds after [data]: the whole blocks are folded in,
    the rest waits in the buffer. *)
Lemma feed_blocks (data : list byte) : forall st buf,
  List.length buf < 64 ->
  let all := buf ++ data in
  let q := List.length all / 64 in
  feed st buf data =
  (fold_left compress (blocks q all) st, skipn (64 * q) all).
Proof.
  induction data as [|x data IH]; intros st buf Hbuf; cbn zeta.
  - rewrite app_nil_r, Nat.div_small by assumption. reflexivity.
  - cbn [feed].
    assert (Hall : buf ++ x :: data = (buf ++ [x]) ++ data)
      by (rewrite <- app_assoc; reflexivity).
    destruct (Nat.eqb_spec (List.length (buf ++ [x])) 64) as [Hfull|Hpart].
    + rewrite (IH (compress st (buf ++ [x])) []) by (simpl; lia).
      cbn zeta. rewrite Hall. cbn [app].
      assert (Hq : List.length ((buf ++ [x]) ++ data) / 64
                   = S (List.length data / 64)).
      { rewrite length_app, Hfull.
        replace (64 + List.length data) with (1 * 64 + List.length data) by lia.
        rewrite Nat.div_add_l by lia. reflexivity. }
      rewrite Hq. cbn [blocks fold_left].
      rewrite firstn_app, skipn_app, Hfull.
      rewrite (@firstn_all2 _ 64 (buf ++ [x])) by lia.
      rewrite (@skipn_all2 _ 64 (buf ++ [x])) by lia.
      rewrite Nat.sub_diag. cbn [firstn skipn app]. rewrite app_nil_r.
      f_equal.
      replace (64 * S (List.length data / 64))
        with (64 * (List.length data / 64) + 64) by lia.
      rewrite <- skipn_skipn, skipn_app, Hfull.
      rewrite (@skipn_all2 _ 64 (buf ++ [x])) by lia.
      rewrite Nat.sub_diag. reflexivity.
    + rewrite length_app in Hpart. simpl in Hpart.
      rewrite (IH st (buf ++ [x])) by (rewrite length_app; simpl; lia).
      cbn zeta. rewrite Hall. reflexivity.
Qed.

(** Streaming the chunks through one context gives the hash of their
    concatenation. *)
Lemma digest_stream (chunks : list (list byte)) :
  digest (fold_left update chunks sha256) = sha256_digest (List.concat chunks).
Proof.
  rewrite fold_update. cbn [sha256 state buffer count].
  set (msg := List.concat chunks).
  pose proof (feed_blocks msg H0 [] ltac:(simpl; lia)) as Hfeed.
  cbn zeta in Hfeed. cbn [app] in Hfeed. rewrite Hfeed.
  unfold digest, sha256_digest. cbn [state buffer count Nat.add].
  set (q := List.length msg / 64).
  set (pad := padding (List.length msg)).
  assert (Hq : 64 * q <= List.length msg)
    by (subst q; apply Nat.Div0.mul_div_le).
  assert (Ha : List.length (firstn (64 * q) msg) = 64 * q)
    by (rewrite length_firstn; lia).
  rewrite <- (firstn_skipn (64 * q) msg) at 4 5.
  rewrite <- !app_assoc.
  set (tail := skipn (64 * q) msg ++ pad).
  assert (Hlen : List.length (firstn (64 * q) msg ++ tail) / 64
                 = q + List.length tail / 64).
  { rewrite length_app, Ha, (Nat.mul_comm 64 q).
    apply Nat.div_add_l. lia. }
  rewrite Hlen, blocks_app by assumption.
  rewrite fold_left_app. f_equal. f_equal.
  rewrite <- (firstn_skipn (64 * q) msg) at 1.
  apply blocks_prefix. assumption.
Qed.

Lemma hexdigest_stream (chunks : list (list byte)) :
  hexdigest (fold_left update chunks sha256)
  = hex (sha256_digest (List.concat chunks)).
Proof. unfold hexdigest. rewrite digest_stream. reflexivity. Qed.

(** Test vectors of FIPS 180-4. *)
Example sha256_abc :
  hexdigest (update sha256 (list_byte_of_string "abc"))
  = "ba7816bf8f01cfea414140de5dae2223b00361a396177a9cb410ff61f20015ad"%string.
Proof. vm_compute. reflexivity. Qed.

Example sha256_two_blocks :
  hex (sha256_digest (list_byte_of_string
    "abcdbcdecdefdefgefghfghighijhijkijkljklmklmnlmnomnopnopq"))
  = "248d6a61d20638b8e5c026930c3e6039a33ce45964ff2167f6ecedd419db06c1"%string.
Proof. vm_compute. reflexivity. Qed.

End Sha256Facts.

(* ================================================================== *)
(** ** Facts about values and dictionaries *)

Module PyFacts.

Lemma dict_mem_get (k : string) (d : dict) :
  dict_mem k d = true <-> exists v, dict_get k d = Some v.
Proof.
  unfold dict_mem. destruct (dict_get k d) as [v|].
  - split; [eauto | reflexivity].
  - split; [discriminate | intros [v Hv]; discriminate].
Qed.

Lemma subscript_get (k : string) (d : dict) (v : value) :
  dict_get k d = Some v -> subscript d k = Ok v.
Proof. unfold subscript. intros ->. reflexivity. Qed.

Lemma subscript_absent (k : string) (d : dict) :
  dict_get k d = None -> subscript d k = Raise (KeyError k).
Proof. unfold subscript. intros ->. reflexivity. Qed.

(** The order on keys is the lexicographic order on bytes. *)
Lemma compare_trans_le (a : string) : forall b c,
  String.compare a b <> Gt -> String.compare b c <> Gt ->
  String.compare a c <> Gt.
Proof.
  induction a as [|x a IH]; intros [|y b] [|z c]; simpl; try congruence.
  unfold Ascii.compare.
  destruct (N.compare_spec (N_of_ascii x) (N_of_ascii y)) as [Hxy|Hxy|Hxy];
    destruct (N.compare_spec (N_of_ascii y) (N_of_ascii z)) as [Hyz|Hyz|Hyz];
    destruct (N.compare_spec (N_of_ascii x) (N_of_ascii z)) as [Hxz|Hxz|Hxz];
    try congruence; try lia.
  apply IH.
Qed.

Lemma leb_trans (a b c : string) :
  String.leb a b = true -> String.leb b c = true -> String.leb a c = true.
Proof.
  unfold String.leb. intros Hab Hbc.
  pose proof (@compare_trans_le a b c) as H.
  destruct (String.compare a b); destruct (String.compare b c);
    destruct (String.compare a c); try reflexivity; try discriminate;
    exfalso; apply H; congruence.
Qed.

Lemma leb_false (a b : string) :
  String.leb a b = false -> String.leb b a = true.
Proof.
  intros H. destruct (String.leb_total a b) as [H'|H']; congruence.
Qed.

Lemma forallb_map (A B : Type) (f : A -> B) (p : B -> bool) (l : list A) :
  forallb p (map f l) = forallb (fun x => p (f x)) l.
Proof.
  induction l as [|x l IH]; cbn [map forallb]; [reflexivity|].
  rewrite IH. reflexivity.
Qed.

Lemma existsb_map (A B : Type) (f : A -> B) (p : B -> bool) (l : list A) :
  existsb p (map f l) = existsb (fun x => p (f x)) l.
Proof.
  induction l as [|x l IH]; cbn [map existsb]; [reflexivity|].
  rewrite IH. reflexivity.
Qed.

End PyFacts.

(* ================================================================== *)
(** ** Facts about the encoder *)

Module BencodeFacts.

Import Bencode PyFacts.

Lemma encode_list_eq (l : list value) :
  encode (VList l)
  = (body <- encode_items l ;; Ok ("l"%byte :: body ++ ["e"%byte])).
Proof.
  reflexivity.
Qed.

Lemma encode_dict_eq (d : dict) :
  encode (VDict d)
  = (entries <- encode_values d ;;
     Ok ("d"%byte :: flat_map encode_entry (sort_entries entries) ++ ["e"%byte])).
Proof.
  reflexivity.
Qed.

Lemma encodable_dict_eq (d : dict) :
  encodable (VDict d) = forallb (fun kv => encodable (snd kv)) d.
Proof.
  cbn [encodable].
  induction d as [|[k x] d IH]; cbn [forallb snd]; [reflexivity|].
  rewrite IH. reflexivity.
Qed.

Lemma contains_float_dict_eq (d : dict) :
  contains_float (VDict d) = existsb (fun kv => contains_float (snd kv)) d.
Proof.
  cbn [contains_float].
  induction d as [|[k x] d IH]; cbn [existsb snd]; [reflexivity|].
  rewrite IH. reflexivity.
Qed.

(** The loops of the encoder, entry by entry. *)
Lemma encode_items_ok (l : list value) : forall body,
  encode_items l = Ok body <->
  exists bs, Forall2 (fun x b => encode x = Ok b) l bs /\ body = List.concat bs.
Proof.
  induction l as [|x l IH]; intros body; cbn [encode_items].
  - split.
    + intros [= <-]. exists []. split; [constructor | reflexivity].
    + intros (bs & Hbs & ->). inversion Hbs. reflexivity.
  - destruct (encode x) as [bx|e] eqn:Hx; cbn [bind].
    + destruct (encode_items l) as [br|e] eqn:Hl; cbn [bind].
      * destruct (proj1 (IH br) eq_refl) as (bs & Hbs & ->).
        split.
        -- intros [= <-]. exists (bx :: bs). split; [constructor; assumption | reflexivity].
        -- intros (bs' & Hbs' & ->). inversion Hbs' as [|? b' ? bs'' Hb' Hrest]; subst.
           assert (b' = bx) by congruence. subst b'.
           assert (Hc : Ok (List.concat bs) = Ok (List.concat bs'')).
           { apply IH. exists bs''. split; [assumption | reflexivity]. }
           injection Hc as Hc. cbn [List.concat]. rewrite Hc. reflexivity.
      * split; [discriminate|].
        intros (bs' & Hbs' & ->). inversion Hbs' as [|? b' ? bs'' Hb' Hrest]; subst.
        assert (Hc : Raise e = Ok (List.concat bs'')).
        { apply IH. exists bs''. split; [assumption | reflexivity]. }
        discriminate.
    + split; [discriminate|].
      intros (bs' & Hbs' & ->). inversion Hbs'; subst. congruence.
Qed.

Lemma encode_values_ok (d : dict) : forall es,
  encode_values d = Ok es <->
  Forall2 (fun kv e => fst e = fst kv /\ encode (snd kv) = Ok (snd e)) d es.
Proof.
  induction d as [|[k x] d IH]; intros es; cbn [encode_values].
  - split.
    + intros [= <-]. constructor.
    + intros H. inversion H. reflexivity.
  - destruct (encode x) as [bx|e] eqn:Hx; cbn [bind].
    + destruct (encode_values d) as [br|e] eqn:Hd; cbn [bind].
      * pose proof (proj1 (IH br) eq_refl) as Hbr.
        split.
        -- intros [= <-]. constructor; [split; [reflexivity | exact Hx] | exact Hbr].
        -- intros H. inversion H as [|? [k' b'] ? es' [Hk Hb] Hrest]; subst.
           cbn [fst snd] in *. subst k'.
           assert (b' = bx) by congruence. subst b'.
           assert (Hc : Ok br = Ok es') by (apply IH; assumption).
           injection Hc as ->. reflexivity.
      * split; [discriminate|].
        intros H. inversion H as [|? e' ? es' _ Hrest]; subst.
        assert (Hc : Raise e = Ok es') by (apply IH; assumption).
        discriminate.
    + split; [discriminate|].
      intros H. inversion H as [|? e' ? es' [_ Hb] _]; subst.
      cbn [snd] in Hb. congruence.
Qed.

(** Every refusal of the encoder is the same exception. *)
Lemma encode_items_raise (l : list value) :
  Forall (fun x => forall e, encode x = Raise e -> e = EncodingError) l ->
  forall e, encode_items l = Raise e -> e = EncodingError.
Proof.
  induction 1 as [|x l Hx _ IH]; intros e; cbn [encode_items]; [discriminate|].
  destruct (encode x) as [bx|ex]; cbn [bind].
  - destruct (encode_items l) as [br|er]; cbn [bind]; [discriminate|].
    intros [= <-]. apply IH. reflexivity.
  - intros [= <-]. apply Hx. reflexivity.
Qed.

Lemma encode_values_raise (d : dict) :
  Forall (fun kv => forall e, encode (snd kv) = Raise e -> e = EncodingError) d ->
  forall e, encode_values d = Raise e -> e = EncodingError.
Proof.
  induction 1 as [|[k x] d Hx _ IH]; intros e; cbn [encode_values]; [discriminate|].
  cbn [snd] in Hx.
  destruct (encode x) as [bx|ex]; cbn [bind].
  - destruct (encode_values d) as [br|er]; cbn [bind]; [discriminate|].
    intros [= <-]. apply IH. reflexivity.
  - intros [= <-]. apply Hx. reflexivity.
Qed.

Lemma encode_raise (v : value) :
  forall e, encode v = Raise e -> e = EncodingError.
Proof.
  induction v as [| | | | |l IH|d IH] using value_induction; intros e;
    try (cbn [encode]; congruence).
  - rewrite encode_list_eq.
    destruct (encode_items l) eqn:Hl; cbn [bind]; [discriminate|].
    intros [= <-]. exact (encode_items_raise IH Hl).
  - rewrite encode_dict_eq.
    destruct (encode_values d) eqn:Hd; cbn [bind]; [discriminate|].
    intros [= <-]. exact (encode_values_raise IH Hd).
Qed.

(** A value without [None] and without a float is encoded. *)
Lemma encodable_encode (v : value) :
  encodable v = true -> exists b, encode v = Ok b.
Proof.
  induction v as [| | | | |l IH|d IH] using value_induction;
    try (cbn [encodable encode]; eauto; discriminate).
  - intros Hl. rewrite encode_list_eq.
    assert (Hbody : exists body, encode_items l = Ok body).
    { cbn [encodable] in Hl. rewrite forallb_forall in Hl.
      induction IH as [|x l Hx _ IHl]; cbn [encode_items]; [eauto|].
      destruct Hx as [bx ->]; [apply Hl; left; reflexivity|].
      destruct IHl as [br ->]; [intros y Hy; apply Hl; right; exact Hy|].
      cbn [bind]. eauto. }
    destruct Hbody as [body ->]. cbn [bind]. eauto.
  - intros Hd. rewrite encode_dict_eq. rewrite encodable_dict_eq in Hd.
    assert (Hes : exists es, encode_values d = Ok es).
    { rewrite forallb_forall in Hd.
      induction IH as [|[k x] d Hx _ IHd]; cbn [encode_values]; [eauto|].
      cbn [snd] in Hx.
      destruct Hx as [bx ->]; [apply (Hd (k, x)); left; reflexivity|].
      destruct IHd as [br ->]; [intros y Hy; apply Hd; right; exact Hy|].
      cbn [bind]. eauto. }
    destruct Hes as [es ->]. cbn [bind]. eauto.
Qed.

(** A value holding a float, at any depth, is refused. *)
Lemma float_not_encoded (v : value) :
  contains_float v = true -> forall b, encode v <> Ok b.
Proof.
  induction v as [| | | | |l IH|d IH] using value_induction;
    try (cbn [contains_float encode]; congruence).
  - intros Hl b. rewrite encode_list_eq.
    destruct (encode_items l) as [body|] eqn:Hbody; cbn [bind]; [|discriminate].
    exfalso. apply encode_items_ok in Hbody. destruct Hbody as (bs & Hbs & _).
    cbn [contains_float] in Hl. apply existsb_exists in Hl.
    destruct Hl as (x & Hin & Hx).
    rewrite Forall_forall in IH.
    clear - Hbs Hin Hx IH.
    induction Hbs as [|y b l bs Hy _ IHl]; [contradiction|].
    destruct Hin as [->|Hin].
    + apply (IH x (or_introl eq_refl) Hx b Hy).
    + apply IHl; [|assumption]. intros z Hz. apply IH. right. exact Hz.
  - intros Hd b. rewrite encode_dict_eq.
    destruct (encode_values d) as [es|] eqn:Hes; cbn [bind]; [|discriminate].
    exfalso. apply encode_values_ok in Hes.
    rewrite contains_float_dict_eq in Hd. apply existsb_exists in Hd.
    destruct Hd as (kv & Hin & Hx).
    rewrite Forall_forall in IH.
    clear - Hes Hin Hx IH.
    induction Hes as [|y e d es [_ Hy] _ IHd]; [contradiction|].
    destruct Hin as [->|Hin].
    + apply (IH kv (or_introl eq_refl) Hx (snd e) Hy).
    + apply IHd; [|assumption]. intros z Hz. apply IH. right. exact Hz.
Qed.

Lemma float_refused (v : value) :
  contains_float v = true -> encode v = Raise EncodingError.
Proof.
  intros Hv. destruct (encode v) as [b|e] eqn:He.
  - exfalso. exact (float_not_encoded v Hv He).
  - f_equal. exact (encode_raise v He).
Qed.

(** *** Sorting the entries of a map *)

Ltac order_contradiction :=
  repeat match goal with
         | H : String.leb ?a ?b = false |- _ =>
             let H' := fresh "Hrev" in
             pose proof (leb_false _ _ H) as H';
             apply Bool.not_true_iff_false in H
         end;
  match goal with
  | Hn : ?a <> ?b, H1 : String.leb ?a ?b = true, H2 : String.leb ?b ?a = true |- _ =>
      exact (False_ind _ (Hn (String.leb_antisym _ _ H1 H2)))
  | H1 : String.leb ?a ?b = true, H2 : String.leb ?b ?c = true,
    H3 : String.leb ?a ?c <> true |- _ =>
      exact (False_ind _ (H3 (leb_trans _ _ _ H1 H2)))
  end.

Lemma insert_entry_comm (x y : string * list byte) :
  fst x <> fst y ->
  forall s, insert_entry x (insert_entry y s) = insert_entry y (insert_entry x s).
Proof.
  intros Hxy s.
  assert (Hyx : fst y <> fst x) by congruence.
  induction s as [|z s IH];
    repeat (cbn [insert_entry];
            match goal with
            | |- context [String.leb ?a ?b] =>
                lazymatch goal with
                | H : String.leb a b = _ |- _ => rewrite H
                | _ => destruct (String.leb a b) eqn:?
                end
            end);
    try reflexivity; try (f_equal; exact IH); order_contradiction.
Qed.

(** The sorted entries depend on the set of entries only, not on the
    order in which they were inserted. *)
Lemma sort_entries_perm (l1 l2 : list (string * list byte)) :
  Permutation l1 l2 -> NoDup (map fst l1) ->
  sort_entries l1 = sort_entries l2.
Proof.
  induction 1 as [|x l1 l2 _ IH|x y l|l1 l2 l3 H12 IH12 H23 IH23]; intros Hnd.
  - reflexivity.
  - cbn [sort_entries fold_right]. f_equal. apply IH.
    cbn [map] in Hnd. inversion Hnd; assumption.
  - cbn [sort_entries fold_right]. apply insert_entry_comm.
    cbn [map] in Hnd. inversion Hnd as [|? ? Hin _]; subst.
    intros Heq. apply Hin. left. symmetry. exact Heq.
  - rewrite IH12 by assumption. apply IH23.
    apply (Permutation_NoDup (l := map fst l1)); [|assumption].
    apply Permutation_map. assumption.
Qed.

(** *** Where an encoding ends *)

Lemma digits_of_uint (d : Decimal.uint) :
  Forall (fun b => is_digit b = true)
         (list_byte_of_string (NilEmpty.string_of_uint d)).
Proof.
  unfold list_byte_of_string.
  induction d; cbn [NilEmpty.string_of_uint list_ascii_of_string map];
    constructor; try reflexivity; assumption.
Qed.

Lemma decimal_digits (n : nat) : Forall (fun b => is_digit b = true) (decimal n).
Proof. apply digits_of_uint. Qed.

Lemma decimal_int_numeric (z : Z) :
  Forall (fun b => is_numeric b = true) (decimal_int z).
Proof.
  unfold decimal_int, NilEmpty.string_of_int.
  assert (Hd : forall d, Forall (fun b => is_numeric b = true)
                           (list_byte_of_string (NilEmpty.string_of_uint d))).
  { intros d. eapply Forall_impl; [|apply digits_of_uint].
    intros b Hb. unfold is_numeric. rewrite Hb. reflexivity. }
  destruct (Z.to_int z) as [d|d]; [apply Hd|].
  unfold list_byte_of_string. cbn [list_ascii_of_string map].
  constructor; [reflexivity | apply Hd].
Qed.

Lemma to_uint_not_nil (n : nat) : Nat.to_uint n <> Decimal.Nil.
Proof.
  intros H. pose proof (DecimalNat.Unsigned.of_to n) as Hn.
  rewrite H in Hn. cbn in Hn. subst n. discriminate H.
Qed.

Lemma decimal_head (n : nat) :
  exists c t, decimal n = c :: t /\ is_digit c = true.
Proof.
  pose proof (decimal_digits n) as Hd. unfold decimal in *.
  destruct (Nat.to_uint n) eqn:Hn;
    try (exfalso; exact (@to_uint_not_nil n Hn));
    unfold list_byte_of_string in *;
    cbn [NilEmpty.string_of_uint list_ascii_of_string map] in *;
    inversion Hd; subst; eauto.
Qed.

Lemma decimal_inj (n m : nat) : decimal n = decimal m -> n = m.
Proof.
  unfold decimal. intros H.
  apply (f_equal string_of_list_byte) in H.
  rewrite !string_of_list_byte_of_string in H.
  apply (f_equal NilEmpty.uint_of_string) in H.
  rewrite !NilEmpty.usu in H. injection H as H.
  apply DecimalNat.Unsigned.to_uint_inj. exact H.
Qed.

(** Two byte strings that agree up to the first occurrence of a
    separator. *)
Lemma split_at_separator (c : byte) (l1 : list byte) : forall l2 x y,
  ~ In c l1 -> ~ In c l2 ->
  l1 ++ c :: x = l2 ++ c :: y -> l1 = l2 /\ x = y.
Proof.
  induction l1 as [|a l1 IH]; intros [|b l2] x y H1 H2 H; cbn [app] in H.
  - injection H as <-. split; reflexivity.
  - injection H as -> _. exfalso. apply H2. left. reflexivity.
  - injection H as -> _. exfalso. apply H1. left. reflexivity.
  - injection H as -> H.
    destruct (IH l2 x y) as [-> ->]; try assumption.
    + intros Hin. apply H1. right. exact Hin.
    + intros Hin. apply H2. right. exact Hin.
    + split; reflexivity.
Qed.

Lemma app_same_length (a : list byte) : forall a' r r',
  List.length a = List.length a' -> a ++ r = a' ++ r' -> a = a' /\ r = r'.
Proof.
  induction a as [|x a IH]; intros [|y a'] r r' Hlen H; try discriminate.
  - split; [reflexivity | exact H].
  - cbn [app] in H. injection H as -> H. injection Hlen as Hlen.
    destruct (IH a' r r' Hlen H) as [-> ->]. split; reflexivity.
Qed.

Lemma no_colon_in_decimal (n : nat) : ~ In ":"%byte (decimal n).
Proof.
  intros Hin. pose proof (decimal_digits n) as Hd.
  rewrite Forall_forall in Hd. specialize (Hd _ Hin). discriminate Hd.
Qed.

Lemma no_e_in_decimal_int (z : Z) : ~ In "e"%byte (decimal_int z).
Proof.
  intros Hin. pose proof (decimal_int_numeric z) as Hd.
  rewrite Forall_forall in Hd. specialize (Hd _ Hin). discriminate Hd.
Qed.

Lemma int_prefix (z z' : Z) (r r' : list byte) :
  encode_int z ++ r = encode_int z' ++ r' ->
  encode_int z = encode_int z' /\ r = r'.
Proof.
  unfold encode_int. cbn [app]. rewrite <- !app_assoc. cbn [app].
  intros [= H].
  apply split_at_separator in H; auto using no_e_in_decimal_int.
  destruct H as [-> ->]. split; reflexivity.
Qed.

Lemma bytes_prefix (s s' r r' : list byte) :
  encode_bytes s ++ r = encode_bytes s' ++ r' ->
  encode_bytes s = encode_bytes s' /\ r = r'.
Proof.
  unfold encode_bytes. rewrite <- !app_assoc. cbn [app].
  intros H.
  apply split_at_separator in H; auto using no_colon_in_decimal.
  destruct H as [Hlen H]. apply decimal_inj in Hlen.
  destruct (app_same_length _ _ _ _ Hlen H) as [-> ->].
  split; reflexivity.
Qed.

Lemma insert_entry_permutation (e : string * list byte) (l : list (string * list byte)) :
  Permutation (insert_entry e l) (e :: l).
Proof.
  induction l as [|x l IH]; cbn [insert_entry]; [reflexivity|].
  destruct (String.leb (fst e) (fst x)); [reflexivity|].
  rewrite IH. apply perm_swap.
Qed.

Lemma sort_entries_permutation (l : list (string * list byte)) :
  Permutation (sort_entries l) l.
Proof.
  induction l as [|x l IH]; cbn [sort_entries fold_right]; [reflexivity|].
  rewrite insert_entry_permutation. apply perm_skip. exact IH.
Qed.

Lemma flat_map_parts (es : list (string * list byte)) :
  flat_map encode_entry es = List.concat (entry_parts es).
Proof.
  unfold entry_parts.
  induction es as [|e es IH]; cbn [flat_map List.concat app]; [reflexivity|].
  rewrite <- IH. unfold encode_entry. rewrite <- app_assoc. reflexivity.
Qed.

Lemma key_is_encoding (k : string) : is_encoding (encode_bytes (to_binary k)).
Proof. exists (VStr k). reflexivity. Qed.

Lemma entry_parts_forall (Q : list byte -> Prop) (es : list (string * list byte)) :
  (forall k, Q (encode_bytes (to_binary k))) ->
  Forall (fun e => Q (snd e)) es -> Forall Q (entry_parts es).
Proof.
  intros Hk. unfold entry_parts.
  induction 1 as [|e es He _ IH]; cbn [flat_map app]; [constructor|].
  constructor; [apply Hk|]. constructor; assumption.
Qed.

(** An encoding is recognised by its first byte: [i] for an integer, a
    digit for bytes, [l] or [d] for a sequence of encodings closed by
    [e]. *)
Lemma encoding_by_head (b : list byte) :
  is_encoding b ->
  exists c t, b = c :: t /\
    ((c = "i"%byte /\ exists z, b = encode_int z)
     \/ (is_digit c = true /\ exists s, b = encode_bytes s)
     \/ ((c = "l"%byte \/ c = "d"%byte) /\
         exists bs, Forall is_encoding bs /\
                    b = c :: List.concat bs ++ ["e"%byte])).
Proof.
  intros [v Hv]. destruct v as [|x|z|f|s|l|d].
  - discriminate.
  - injection Hv as <-. eexists _, _. split; [reflexivity|]. left. eauto.
  - injection Hv as <-. eexists _, _. split; [reflexivity|]. left. eauto.
  - discriminate.
  - injection Hv as <-. unfold encode_bytes.
    destruct (decimal_head (List.length (to_binary s))) as (c & t & Ht & Hc).
    rewrite Ht. eexists _, _. split; [reflexivity|]. right. left.
    split; [exact Hc|]. exists (to_binary s). unfold encode_bytes.
    rewrite Ht. reflexivity.
  - rewrite encode_list_eq in Hv.
    destruct (encode_items l) as [body|] eqn:Hl; cbn [bind] in Hv; [|discriminate].
    injection Hv as <-. apply encode_items_ok in Hl.
    destruct Hl as (bs & Hbs & ->).
    eexists _, _. split; [reflexivity|]. right. right.
    split; [left; reflexivity|]. exists bs. split; [|reflexivity].
    clear - Hbs. induction Hbs; constructor; [eexists; eassumption | assumption].
  - rewrite encode_dict_eq in Hv.
    destruct (encode_values d) as [es|] eqn:Hd; cbn [bind] in Hv; [|discriminate].
    injection Hv as <-. apply encode_values_ok in Hd.
    eexists _, _. split; [reflexivity|]. right. right.
    split; [right; reflexivity|]. exists (entry_parts (sort_entries es)).
    split; [|rewrite flat_map_parts; reflexivity].
    apply entry_parts_forall; [apply key_is_encoding|].
    eapply Permutation_Forall; [symmetry; apply sort_entries_permutation|].
    clear - Hd. induction Hd as [|kv e d es [_ He] _ IH]; constructor;
      [eexists; eassumption | assumption].
Qed.

Lemma encoding_not_closing (b : list byte) :
  is_encoding b -> exists c t, b = c :: t /\ c <> "e"%byte.
Proof.
  intros Hb. destruct (encoding_by_head Hb) as (c & t & -> & Hc).
  exists c, t. split; [reflexivity|].
  intros ->. destruct Hc as [[Hc _]|[[Hc _]|[[Hc|Hc] _]]]; discriminate.
Qed.

(** A sequence of encodings closed by [e] is read back unambiguously
    when each member is. *)
Lemma concat_prefix (bs : list (list byte)) :
  Forall prefix_free bs -> Forall is_encoding bs ->
  forall bs', Forall is_encoding bs' ->
  forall r r',
    List.concat bs ++ "e"%byte :: r = List.concat bs' ++ "e"%byte :: r' ->
    List.concat bs = List.concat bs' /\ r = r'.
Proof.
  induction 1 as [|b bs Hb _ IH]; intros Henc bs' Henc' r r' H.
  - destruct Henc' as [|b' bs' Hb' _]; cbn [List.concat app] in H.
    + injection H as <-. split; reflexivity.
    + destruct (encoding_not_closing Hb') as (c & t & -> & Hc).
      cbn [app] in H. injection H as H _. congruence.
  - inversion Henc as [|? ? Hbe Hrest]; subst.
    destruct Henc' as [|b' bs' Hb' Hrest']; cbn [List.concat app] in H.
    + destruct (encoding_not_closing Hbe) as (c & t & -> & Hc).
      cbn [app] in H. injection H as H _. congruence.
    + rewrite <- !app_assoc in H.
      destruct (Hb _ _ _ Hb' H) as [<- H'].
      destruct (IH Hrest _ Hrest' _ _ H') as [Hc ->].
      cbn [List.concat]. rewrite Hc. split; reflexivity.
Qed.

Lemma int_prefix_free (z : Z) : prefix_free (encode_int z).
Proof.
  intros b' r r' Hb' H.
  destruct (encoding_by_head Hb') as (c & t & Hct & Hc).
  assert (Hhead : c = "i"%byte).
  { rewrite Hct in H. unfold encode_int in H. cbn [app] in H. congruence. }
  subst c. destruct Hc as [[_ [z' Hz']]|[[Hc _]|[[Hc|Hc] _]]]; try discriminate.
  rewrite Hz' in *. apply int_prefix. exact H.
Qed.

Lemma bytes_prefix_free (s : list byte) : prefix_free (encode_bytes s).
Proof.
  intros b' r r' Hb' H.
  destruct (encoding_by_head Hb') as (c & t & Hct & Hc).
  assert (Hhead : is_digit c = true).
  { rewrite Hct in H. unfold encode_bytes in H.
    destruct (decimal_head (List.length s)) as (c0 & t0 & Ht0 & Hc0).
    rewrite Ht0 in H. cbn [app] in H. congruence. }
  destruct Hc as [[-> _]|[[_ [s' Hs']]|[[->| ->] _]]]; try discriminate.
  rewrite Hs' in *. apply bytes_prefix. exact H.
Qed.

Lemma sequence_prefix_free (m : byte) (bs : list (list byte)) :
  m = "l"%byte \/ m = "d"%byte ->
  Forall prefix_free bs -> Forall is_encoding bs ->
  prefix_free (m :: List.concat bs ++ ["e"%byte]).
Proof.
  intros Hm Hpf Henc b' r r' Hb' H.
  destruct (encoding_by_head Hb') as (c & t & Hct & Hc).
  assert (Hhead : c = m).
  { rewrite Hct in H. cbn [app] in H. congruence. }
  subst c.
  destruct Hc as [[-> _]|[[Hc _]|[_ (bs' & Henc' & Hb)]]].
  - destruct Hm; discriminate.
  - destruct Hm; subst m; discriminate.
  - rewrite Hb in *. cbn [app] in H. injection H as H.
    rewrite <- !app_assoc in H. cbn [app] in H.
    destruct (concat_prefix Hpf Henc Henc' _ _ H) as [Hcc ->].
    rewrite Hcc. split; reflexivity.
Qed.

(** The encoding of a value is never a proper prefix of, nor properly
    extends, the encoding of another value. *)
Lemma encode_prefix_free (v : value) :
  forall b, encode v = Ok b -> prefix_free b.
Proof.
  induction v as [|x|z|f|s|l IH|d IH] using value_induction; intros b Hb;
    try discriminate.
  - injection Hb as <-. apply int_prefix_free.
  - injection Hb as <-. apply int_prefix_free.
  - injection Hb as <-. apply bytes_prefix_free.
  - rewrite encode_list_eq in Hb.
    destruct (encode_items l) as [body|] eqn:Hl; cbn [bind] in Hb; [|discriminate].
    injection Hb as <-. apply encode_items_ok in Hl.
    destruct Hl as (bs & Hbs & ->).
    apply sequence_prefix_free; [left; reflexivity| |].
    + clear - Hbs IH. induction Hbs as [|x b l bs Hx _ IHl]; [constructor|].
      inversion IH; subst. constructor; auto.
    + clear - Hbs. induction Hbs; constructor; [eexists; eassumption | assumption].
  - rewrite encode_dict_eq in Hb.
    destruct (encode_values d) as [es|] eqn:Hd; cbn [bind] in Hb; [|discriminate].
    injection Hb as <-. apply encode_values_ok in Hd.
    rewrite flat_map_parts.
    apply sequence_prefix_free; [right; reflexivity| |].
    + apply entry_parts_forall; [intros k; apply bytes_prefix_free|].
      eapply Permutation_Forall; [symmetry; apply sort_entries_permutation|].
      clear - Hd IH. induction Hd as [|kv e d es [_ He] _ IHd]; [constructor|].
      inversion IH; subst. constructor; auto.
    + apply entry_parts_forall; [apply key_is_encoding|].
      eapply Permutation_Forall; [symmetry; apply sort_entries_permutation|].
      clear - Hd. induction Hd as [|kv e d es [_ He] _ IHd]; constructor;
        [eexists; eassumption | assumption].
Qed.

(** Two different encodings do not commute under concatenation. *)
Lemma encodings_do_not_commute (b1 b2 : list byte) :
  is_encoding b1 -> is_encoding b2 -> b1 <> b2 -> b1 ++ b2 <> b2 ++ b1.
Proof.
  intros [v1 H1] H2 Hne H.
  apply Hne. exact (proj1 (@encode_prefix_free v1 b1 H1 b2 b2 b1 H2 H)).
Qed.

End BencodeFacts.

(* ================================================================== *)
(** ** Facts about validation, redaction and the loop *)

Module V1Facts.

Import Bencode Sha256 V1 PyFacts BencodeFacts.

Local Open Scope string_scope.

Lemma V1_FIELDS_NoDup : NoDup V1_FIELDS.
Proof.
  unfold V1_FIELDS.
  repeat (constructor; [cbn [In]; intuition discriminate|]).
  constructor.
Qed.

Lemma difference_nil (fields : list string) (d : dict) :
  difference fields d = [] <-> forallb (fun k => dict_mem k d) fields = true.
Proof.
  unfold difference.
  induction fields as [|k fields IH]; cbn [filter forallb]; [tauto|].
  destruct (dict_mem k d); cbn [negb andb]; [exact IH|].
  split; discriminate.
Qed.

Lemma has_fields_dict (event : value) :
  has_fields event = true ->
  exists d, event = VDict d /\ difference V1_FIELDS d = [].
Proof.
  destruct event as [| | | | | |d]; try discriminate.
  intros H. exists d. split; [reflexivity|]. apply difference_nil. exact H.
Qed.

Lemma has_fields_get (d : dict) (k : string) :
  has_fields (VDict d) = true -> In k V1_FIELDS ->
  exists v, dict_get k d = Some v.
Proof.
  cbn [has_fields]. rewrite forallb_forall. intros H Hk.
  apply dict_mem_get. apply H. exact Hk.
Qed.

(** Validation accepts exactly the dictionaries that have every required
    field and a confirmation status equal to one of the two strings. *)
Lemma check_event_ok (event : value) :
  __check_event event = Ok tt <->
  has_fields event = true /\ terminal event = true.
Proof.
  destruct event as [| | | | | |d];
    try (split; [discriminate | intros [H _]; discriminate]).
  unfold terminal, field. cbn [__check_event has_fields].
  destruct (difference V1_FIELDS d) as [|k missing] eqn:Hdiff.
  - assert (Hall : forallb (fun k => dict_mem k d) V1_FIELDS = true)
      by (apply difference_nil; exact Hdiff).
    rewrite Hall.
    destruct (@has_fields_get d "confirmation_status" Hall) as [status Hs];
      [cbn; tauto|].
    rewrite (subscript_get _ _ Hs), Hs. cbn [bind].
    rewrite (Bool.orb_comm (eq_str status "CONFIRMED")).
    destruct (eq_str status "FAILED" || eq_str status "CONFIRMED"); cbn [negb].
    + tauto.
    + destruct (@has_fields_get d "identity" Hall) as [identity Hi];
        [cbn; tauto|].
      rewrite (subscript_get _ _ Hi). cbn [bind].
      split; [discriminate | intros [_ H]; discriminate].
  - assert (Hall : forallb (fun k => dict_mem k d) V1_FIELDS <> true).
    { intros H. apply difference_nil in H. congruence. }
    split; [|intros [H _]; contradiction].
    destruct (subscript d "identity"); discriminate.
Qed.

Lemma project_ok (d : dict) (order : list string) :
  (forall k, In k order -> exists v, dict_get k d = Some v) ->
  project order d =
  Ok (map (fun k => (k, match dict_get k d with
                        | Some v => v
                        | None => VNone
                        end)) order).
Proof.
  induction order as [|k order IH]; intros H; cbn [project map]; [reflexivity|].
  destruct (H k (or_introl eq_refl)) as [v Hv].
  rewrite (subscript_get _ _ Hv), Hv. cbn [bind].
  rewrite IH by (intros k' Hk'; apply H; right; exact Hk').
  reflexivity.
Qed.

(** The encoding of a dictionary does not depend on the order in which
    its entries were inserted. *)
Lemma encode_values_perm (d1 d2 : dict) :
  Permutation d1 d2 ->
  forall es1, encode_values d1 = Ok es1 ->
  exists es2, encode_values d2 = Ok es2 /\ Permutation es1 es2.
Proof.
  induction 1 as [|[k x] d1 d2 _ IH|[k x] [k' x'] d|d1 d2 d3 _ IH12 _ IH23];
    intros es1 H1.
  - exists es1. split; [exact H1 | reflexivity].
  - cbn [encode_values] in *.
    destruct (encode x) as [bx|]; cbn [bind] in *; [|discriminate].
    destruct (encode_values d1) as [br|]; cbn [bind] in *; [|discriminate].
    injection H1 as <-. destruct (IH br eq_refl) as (es2 & -> & Hp).
    cbn [bind]. eexists. split; [reflexivity|]. apply perm_skip. exact Hp.
  - cbn [encode_values] in *.
    destruct (encode x') as [bx'|]; cbn [bind] in *; [|discriminate].
    destruct (encode x) as [bx|]; cbn [bind] in *; [|discriminate].
    destruct (encode_values d) as [br|]; cbn [bind] in *; [|discriminate].
    injection H1 as <-. eexists. split; [reflexivity|]. apply perm_swap.
  - destruct (IH12 es1 H1) as (es2 & H2 & Hp12).
    destruct (IH23 es2 H2) as (es3 & H3 & Hp23).
    exists es3. split; [exact H3|]. etransitivity; eassumption.
Qed.

Lemma encode_values_keys (d : dict) : forall es,
  encode_values d = Ok es -> map fst es = map fst d.
Proof.
  induction d as [|[k x] d IH]; intros es; cbn [encode_values].
  - intros [= <-]. reflexivity.
  - destruct (encode x) as [bx|]; cbn [bind]; [|discriminate].
    destruct (encode_values d) as [br|]; cbn [bind]; [|discriminate].
    intros [= <-]. cbn [map fst]. f_equal. apply IH. reflexivity.
Qed.

Lemma encode_dict_perm (d1 d2 : dict) :
  Permutation d1 d2 -> NoDup (map fst d1) ->
  encode (VDict d1) = encode (VDict d2).
Proof.
  intros Hp Hnd.
  destruct (encode (VDict d1)) as [b1|e1] eqn:H1.
  - rewrite encode_dict_eq in *.
    destruct (encode_values d1) as [es1|] eqn:He1; cbn [bind] in H1; [|discriminate].
    destruct (encode_values_perm Hp He1) as (es2 & -> & Hes).
    cbn [bind]. rewrite <- H1.
    rewrite (@sort_entries_perm es1 es2); [reflexivity | exact Hes |].
    rewrite (encode_values_keys _ He1). exact Hnd.
  - destruct (encode (VDict d2)) as [b2|e2] eqn:H2.
    + exfalso. rewrite encode_dict_eq in *.
      destruct (encode_values d2) as [es2|] eqn:He2; cbn [bind] in H2; [|discriminate].
      destruct (encode_values_perm (Permutation_sym Hp) He2) as (es1 & He1 & _).
      rewrite He1 in H1. discriminate.
    + rewrite (encode_raise _ H1), (encode_raise _ H2). reflexivity.
Qed.

(** The canonical bytes of a validated event are the encoding of its
    projection, whatever the iteration order of the set of names. *)
Lemma canonical_projection (order : list string) (event : value) :
  Permutation order V1_FIELDS ->
  __check_event event = Ok tt ->
  canonical order event = encode (projection event).
Proof.
  intros Hp Hcheck. unfold canonical. rewrite Hcheck. cbn [bind].
  apply check_event_ok in Hcheck. destruct Hcheck as [Hf _].
  destruct (has_fields_dict _ Hf) as (d & -> & _).
  cbn [redact_event].
  rewrite project_ok.
  - cbn [bind]. unfold projection. cbn [field].
    apply encode_dict_perm.
    + apply Permutation_map. exact Hp.
    + rewrite map_map. cbn [fst]. rewrite map_id.
      apply (Permutation_NoDup (Permutation_sym Hp)). exact V1_FIELDS_NoDup.
  - intros k Hk. apply has_fields_get; [exact Hf|].
    apply (Permutation_in _ Hp). exact Hk.
Qed.

End V1Facts.

(* ================================================================== *)
(** ** The loop of [anchor_events] *)

Module LoopFacts.

Import Bencode Sha256 V1 PyFacts BencodeFacts V1Facts Sha256Facts.

Section Loop.

Variable order : list string.

(** The loop stops at the first event without a chunk, with the context
    fed with the chunks of the events before it. *)
Lemma anchor_loop_abort (g : gen) : forall hasher pre ev post chunks e,
  events_of g = pre ++ ev :: post ->
  Forall2 (chunk_of order) pre chunks ->
  canonical order ev = Raise e ->
  anchor_loop order hasher g = (fold_left update chunks hasher, Raised e).
Proof.
  induction g as [rq data g IH|x g IH|e0| |]; intros hasher pre ev post chunks e Hev Hpre He;
    cbn [events_of] in Hev;
    try (destruct pre; discriminate).
  - cbn [anchor_loop]. eapply IH; eassumption.
  - cbn [anchor_loop]. destruct Hpre as [|p c pre chunks Hp Hpre]; cbn [app] in Hev.
    + injection Hev as -> _. rewrite He. reflexivity.
    + injection Hev as -> Hev. unfold chunk_of in Hp. rewrite Hp.
      cbn [fold_left]. eapply IH; eassumption.
Qed.

(** A generator that returns is consumed to its end. *)
Lemma anchor_loop_exhausted (g : gen) : forall hasher chunks,
  returns g = true ->
  Forall2 (chunk_of order) (events_of g) chunks ->
  anchor_loop order hasher g = (fold_left update chunks hasher, Exhausted).
Proof.
  induction g as [rq data g IH|x g IH|e0| |]; intros hasher chunks Hret Hch;
    cbn [returns events_of] in *; try discriminate.
  - cbn [anchor_loop]. apply IH; assumption.
  - cbn [anchor_loop]. inversion Hch as [|? c ? chunks' Hx Hrest]; subst.
    unfold chunk_of in Hx. rewrite Hx. cbn [fold_left]. apply IH; assumption.
  - inversion Hch; subst. reflexivity.
Qed.

(** Either every event of a list has a chunk, or there is a first one
    without. *)
Lemma first_refused (l : list value) :
  (exists chunks, Forall2 (chunk_of order) l chunks)
  \/ (exists fed x rest chunks e,
        l = fed ++ x :: rest /\ Forall2 (chunk_of order) fed chunks /\
        canonical order x = Raise e).
Proof.
  induction l as [|x l IH].
  - left. exists []. constructor.
  - destruct (canonical order x) as [c|e] eqn:Hx.
    + destruct IH as [[chunks H]|(fed & y & rest & chunks & e & -> & Hfed & Hy)].
      * left. exists (c :: chunks). constructor; assumption.
      * right. exists (x :: fed), y, rest, (c :: chunks), e.
        split; [reflexivity|]. split; [constructor; assumption | exact Hy].
    + right. exists [], x, l, [], e.
      split; [reflexivity|]. split; [constructor | exact Hx].
Qed.

Lemma anchor_of_loop (g : gen) (h : hasher) (e : exn) :
  anchor_loop order sha256 g = (h, Raised e) -> anchor order g = Some (Raise e).
Proof. unfold anchor. intros ->. reflexivity. Qed.

Lemma canonical_is_encoding (event : value) (c : list byte) :
  canonical order event = Ok c -> is_encoding c.
Proof.
  unfold canonical.
  destruct (__check_event event); cbn [bind]; [|discriminate].
  destruct (redact_event order event) as [r|]; cbn [bind]; [|discriminate].
  intros H. exists r. exact H.
Qed.

Hypothesis order_perm : Permutation order V1_FIELDS.

(** A validated event whose required fields are all encodable has a
    chunk: the encoding of its projection. *)
Lemma chunk_of_encodable (event : value) :
  __check_event event = Ok tt -> fields_encodable event = true ->
  exists c, encode (projection event) = Ok c /\ chunk_of order event c.
Proof.
  intros Hcheck Henc.
  destruct (@encodable_encode (projection event)) as [c Hc].
  - unfold projection. rewrite encodable_dict_eq, forallb_map. cbn [snd].
    unfold fields_encodable in Henc.
    rewrite forallb_forall in *. intros k Hk. specialize (Henc k Hk).
    destruct (field k event); [exact Henc | discriminate].
  - exists c. split; [exact Hc|]. unfold chunk_of.
    rewrite canonical_projection; assumption.
Qed.

Lemma chunks_of_encodable (l : list value) :
  Forall (fun ev => __check_event ev = Ok tt) l ->
  Forall (fun ev => fields_encodable ev = true) l ->
  exists chunks,
    Forall2 (fun ev c => encode (projection ev) = Ok c) l chunks
    /\ Forall2 (chunk_of order) l chunks.
Proof.
  induction 1 as [|x l Hx _ IH]; intros Henc.
  - exists []. split; constructor.
  - inversion Henc as [|? ? Hex Hel]; subst.
    destruct (chunk_of_encodable x Hx Hex) as (c & Hc & Hch).
    destruct (IH Hel) as (chunks & Hp & Hcs).
    exists (c :: chunks). split; constructor; assumption.
Qed.

(** A validated event with a float in a required field has no chunk. *)
Lemma float_refused_in_event (event : value) :
  __check_event event = Ok tt -> float_in_fields event = true ->
  canonical order event = Raise EncodingError.
Proof.
  intros Hcheck Hfloat.
  rewrite canonical_projection by assumption.
  apply float_refused.
  unfold projection. rewrite contains_float_dict_eq, existsb_map. cbn [snd].
  unfold float_in_fields in Hfloat.
  apply existsb_exists in Hfloat. destruct Hfloat as (k & Hk & Hf).
  apply existsb_exists. exists k. split; [exact Hk|].
  destruct (field k event); [exact Hf | discriminate].
Qed.

End Loop.

(** *** The requests of [list_events] *)

Local Open Scope string_scope.

Lemma exchanges_yield_all (items : list value) (g : gen) :
  exchanges_of (yield_all items g) = exchanges_of g.
Proof.
  unfold yield_all. induction items as [|x items IH]; [reflexivity | exact IH].
Qed.

Lemma loop_exchanges (St : Type) (http_get : St -> request -> St * value)
  (url : string) (headers : dict) (fuel : nat) :
  forall (st : St) (query : dict),
    match exchanges_of (list_events_loop http_get fuel st url query headers) with
    | [] => fuel = 0
    | (rq, data) :: later =>
        rq = Request url query headers /\ chained data later
    end.
Proof.
  induction fuel as [|fuel IH]; intros st query; cbn [list_events_loop];
    [reflexivity|].
  destruct (http_get st (Request url query headers)) as [st' data].
  cbn [exchanges_of]. split; [reflexivity|].
  destruct data as [| | | | | |d]; try exact I.
  destruct (subscript d "events") as [events|]; [|exact I].
  destruct (iterate events) as [items|]; [|exact I].
  rewrite exchanges_yield_all. cbn [next_page_token].
  set (page_token := match dict_get "next_page_token" d with
                     | Some t => t
                     | None => VNone
                     end).
  destruct (truthy page_token) eqn:Htok; cbn [negb]; [|exact I].
  specialize (IH st' [("page_token", page_token)]).
  destruct (exchanges_of (list_events_loop http_get fuel st' url
                            [("page_token", page_token)] headers))
    as [|[rq data'] later]; [exact I|].
  destruct IH as [-> Hchain]. cbn [chained params next_page_token].
  fold page_token. repeat split; assumption.
Qed.

Lemma returns_yield_all (items : list value) (g : gen) :
  returns (yield_all items g) = returns g.
Proof.
  unfold yield_all. induction items as [|x items IH]; [reflexivity | exact IH].
Qed.

(** A generator that returns within [fuel] iterations is the same with
    more: the number of iterations considered does not matter once the
    loop has ended. *)
Lemma list_events_loop_more_fuel (St : Type)
  (http_get : St -> request -> St * value) (url : string) (headers : dict)
  (fuel more : nat) :
  forall (st : St) (query : dict),
    returns (list_events_loop http_get fuel st url query headers) = true ->
    list_events_loop http_get (fuel + more) st url query headers
    = list_events_loop http_get fuel st url query headers.
Proof.
  induction fuel as [|fuel IH]; intros st query; [discriminate|].
  cbn [Nat.add list_events_loop].
  destruct (http_get st (Request url query headers)) as [st' data].
  cbn [returns]. intros Hret. f_equal.
  destruct data as [| | | | | |d]; try reflexivity.
  destruct (subscript d "events") as [events|]; [|reflexivity].
  destruct (iterate events) as [items|]; [|reflexivity].
  rewrite returns_yield_all in Hret. f_equal.
  destruct (negb (truthy match dict_get "next_page_token" d with
                         | Some t => t
                         | None => VNone
                         end)); [reflexivity|].
  apply IH. exact Hret.
Qed.

Lemma chained_only_token (xs : list (request * value)) : forall prev,
  chained prev xs ->
  Forall (fun x => exists token, params (fst x) = [("page_token", token)]) xs.
Proof.
  induction xs as [|[rq data] xs IH]; intros prev H; [constructor|].
  cbn [chained] in H. destruct H as (Hp & _ & Hrest).
  constructor; [cbn [fst]; eauto | exact (IH _ Hrest)].
Qed.

End LoopFacts.

(* ================================================================== *)
(** ** Equal values have the same encoding *)

Module EqualityFacts.

Import Bencode V1 Equality PyFacts BencodeFacts V1Facts.

















End EqualityFacts.

(* ================================================================== *)
(** ** The properties of the specification

    In the statements [anchor order g] is [anchor_events] run on the
    generator [g] that [list_events] returned, and [order] is the order
    in which the interpreter iterates over the set [V1_FIELDS]. *)

Import Bencode Sha256 V1 Equality Examples EqualityExamples.
Import PyFacts BencodeFacts V1Facts Sha256Facts LoopFacts EqualityFacts.

Local Open Scope string_scope.

(** C1, as amended.  For every finite sequence of events that each have
    the fourteen required fields, a confirmation status CONFIRMED or
    FAILED and, in the required fields, only values the encoder accepts,
    [anchor_events] returns the lowercase hexadecimal SHA-256 digest of
    the concatenation, in order, of the bencoded projections of the
    events onto the fourteen fields: feeding the chunks to one context
    gives the hash of the concatenation. *)
Theorem anchor_sha256_of_concatenation :
  forall (order : list string) (g : gen),
    Permutation order V1_FIELDS ->
    returns g = true ->
    Forall (fun ev => has_fields ev = true /\ terminal ev = true
                      /\ fields_encodable ev = true) (events_of g) ->
    exists chunks,
      Forall2 (fun ev c => encode (projection ev) = Ok c) (events_of g) chunks
      /\ anchor order g = Some (Ok (hex (sha256_digest (List.concat chunks)))).
Proof.
  intros order g Hperm Hret Hall.
  destruct (@chunks_of_encodable order Hperm (events_of g)) as (chunks & Hproj & Hch).
  - eapply Forall_impl; [|exact Hall].
    intros ev (Hf & Ht & _). apply check_event_ok. split; assumption.
  - eapply Forall_impl; [|exact Hall]. intros ev (_ & _ & He). exact He.
  - exists chunks. split; [exact Hproj|].
    unfold anchor. rewrite (@anchor_loop_exhausted order g sha256 chunks Hret Hch).
    rewrite hexdigest_stream. reflexivity.
Qed.

(** C2, as amended.  When the source yields no event and ends,
    [anchor_events] returns the SHA-256 digest of the empty input,
    e3b0c442...7852b855 (sixty-four digits). *)
Theorem anchor_empty_source :
  forall (order : list string) (g : gen),
    returns g = true ->
    events_of g = [] ->
    anchor order g =
    Some (Ok "e3b0c44298fc1c149afbf4c8996fb92427ae41e4649b934ca495991b7852b855").
Proof.
  intros order g Hret Hnil.
  unfold anchor.
  rewrite (@anchor_loop_exhausted order g sha256 [] Hret)
    by (rewrite Hnil; constructor).
  cbn [fold_left]. vm_compute. reflexivity.
Qed.


(** C4, as amended.  When some event of the sequence fails validation,
    [ev] being the first such event, [anchor_events] raises an exception
    and returns no digest; the context has been fed the bytes of events
    that precede [ev] only, nothing of [ev] nor of a later event.  The
    exception is the validation error of [ev], all the events before it
    having been fed, or else the refusal by the encoder of an event
    before [ev]; it is the validation error whenever every event before
    [ev] holds only values the encoder accepts. *)
Theorem validation_failure_aborts :
  forall (order : list string) (g : gen) (pre post : list value)
         (ev : value) (e : exn),
    Permutation order V1_FIELDS ->
    events_of g = (pre ++ ev :: post)%list ->
    Forall (fun x => __check_event x = Ok tt) pre ->
    __check_event ev = Raise e ->
    exists fed rest chunks err,
      pre = (fed ++ rest)%list
      /\ Forall2 (chunk_of order) fed chunks
      /\ anchor_loop order sha256 g = (fold_left update chunks sha256, Raised err)
      /\ anchor order g = Some (Raise err)
      /\ ((rest = [] /\ err = e) \/ (rest <> [] /\ err = EncodingError))
      /\ (Forall (fun x => fields_encodable x = true) pre ->
          rest = [] /\ err = e).
Proof.
  intros order g pre post ev e Hperm Hev Hpre Hcheck.
  assert (Hcan : canonical order ev = Raise e)
    by (unfold canonical; rewrite Hcheck; reflexivity).
  destruct (first_refused order pre)
    as [[chunks Hch]|(fed & x & rest & chunks & err & Hsplit & Hfed & Hx)].
  - exists pre, [], chunks, e.
    pose proof (@anchor_loop_abort order g sha256 pre ev post chunks e Hev Hch Hcan) as Hloop.
    split; [symmetry; apply app_nil_r|].
    split; [exact Hch|]. split; [exact Hloop|].
    split; [exact (@anchor_of_loop order g _ _ Hloop)|].
    split; [left; split; reflexivity|]. intros _. split; reflexivity.
  - exists fed, (x :: rest), chunks, err.
    assert (Hev' : events_of g = (fed ++ x :: (rest ++ ev :: post))%list)
      by (rewrite Hev, Hsplit, <- app_assoc; reflexivity).
    pose proof (@anchor_loop_abort order g sha256 fed x _ chunks err Hev' Hfed Hx) as Hloop.
    split; [exact Hsplit|]. split; [exact Hfed|]. split; [exact Hloop|].
    split; [exact (@anchor_of_loop order g _ _ Hloop)|].
    rewrite Hsplit in Hpre. apply Forall_app in Hpre.
    destruct Hpre as [_ Hpre]. inversion Hpre as [|? ? Hxc _]; subst.
    split.
    + right. split; [discriminate|].
      rewrite (@canonical_projection order x Hperm Hxc) in Hx.
      exact (encode_raise _ Hx).
    + intros Henc. exfalso.
      apply Forall_app in Henc. destruct Henc as [_ Henc].
      inversion Henc as [|? ? Hxe _]; subst.
      destruct (@chunk_of_encodable order Hperm x Hxc Hxe) as (c & _ & Hc).
      unfold chunk_of in Hc. congruence.
Qed.

(** C5.  Where the code departs from the statement: an event without the
    key [identity] is missing a required field, yet validation does not
    end with the missing-field error; evaluating [event['identity']] for
    the message raises [KeyError] first. *)
Theorem check_event_missing_identity :
  forall d : dict,
    dict_get "identity" d = None ->
    __check_event (VDict d) = Raise (KeyError "identity").
Proof.
  intros d Hid. cbn [__check_event].
  destruct (difference V1_FIELDS d) as [|k missing] eqn:Hdiff.
  - exfalso. apply difference_nil in Hdiff.
    destruct (@has_fields_get d "identity" Hdiff) as [v Hv]; [cbn; tauto|].
    congruence.
  - rewrite (subscript_absent _ _ Hid). reflexivity.
Qed.

(** C6.  The completeness check does come first: an event that misses a
    required field never ends validation with the status error, and with
    [identity] present it ends with the missing-field error, carrying
    the identity and all the missing names.  Where the code departs from
    the statement: without [identity] it ends with [KeyError], not with
    the missing-field error. *)
Theorem check_event_incomplete :
  forall d : dict,
    difference V1_FIELDS d <> [] ->
    (forall identity status,
        __check_event (VDict d) <> Raise (SimpleHashPendingEventFound identity status))
    /\ (forall identity,
          dict_get "identity" d = Some identity ->
          __check_event (VDict d)
          = Raise (SimpleHashFieldMissing identity (difference V1_FIELDS d)))
    /\ (dict_get "identity" d = None ->
        __check_event (VDict d) = Raise (KeyError "identity")).
Proof.
  intros d Hdiff. cbn [__check_event].
  destruct (difference V1_FIELDS d) as [|k missing]; [contradiction|].
  unfold subscript.
  destruct (dict_get "identity" d) as [identity|]; cbn [bind].
  - split; [discriminate|]. split; [|discriminate].
    intros i [= <-]. reflexivity.
  - split; [discriminate|]. split; [discriminate | reflexivity].
Qed.

(** C7.  For every event with the fourteen required fields, validation
    raises the non-terminal-status error, carrying the identity and the
    status found, if and only if the value of [confirmation_status] is
    neither the string CONFIRMED nor the string FAILED; and an event
    whose status is one of the two strings passes. *)
Theorem check_event_status :
  forall ev : value,
    has_fields ev = true ->
    ((exists identity found,
         __check_event ev = Raise (SimpleHashPendingEventFound identity found)
         /\ field "identity" ev = Some identity
         /\ field "confirmation_status" ev = Some found)
     <-> (field "confirmation_status" ev <> Some (VStr "CONFIRMED")
          /\ field "confirmation_status" ev <> Some (VStr "FAILED")))
    /\ (field "confirmation_status" ev = Some (VStr "CONFIRMED")
        \/ field "confirmation_status" ev = Some (VStr "FAILED") ->
        __check_event ev = Ok tt).
Proof.
  intros ev Hf.
  destruct (has_fields_dict _ Hf) as (d & -> & Hdiff).
  destruct (@has_fields_get d "confirmation_status" Hf) as [s Hs]; [cbn; tauto|].
  destruct (@has_fields_get d "identity" Hf) as [i Hi]; [cbn; tauto|].
  cbn [__check_event field]. rewrite Hdiff.
  rewrite (subscript_get _ _ Hs), (subscript_get _ _ Hi), Hs, Hi. cbn [bind].
  assert (Hstr : forall lit, eq_str s lit = true <-> Some s = Some (VStr lit)).
  { intros lit. destruct s; cbn [eq_str];
      try (split; [discriminate | intros [= ]]).
    rewrite String.eqb_eq. split; [intros ->; reflexivity | intros [= ->]; reflexivity]. }
  pose proof (Hstr "CONFIRMED") as Hc. pose proof (Hstr "FAILED") as Hfl.
  destruct (eq_str s "FAILED") eqn:Ef; destruct (eq_str s "CONFIRMED") eqn:Ec;
    cbn [orb negb].
  all: split; [split|].
  all: try (intros (? & ? & H & _); discriminate H).
  all: try (intros [H1 H2]; exfalso;
            solve [apply H1; apply Hc; reflexivity
                  | apply H2; apply Hfl; reflexivity]).
  all: try (intros _; reflexivity).
  - intros _. split; intros H.
    + apply Hc in H. discriminate.
    + apply Hfl in H. discriminate.
  - intros _. exists i, s. repeat split.
  - intros [H|H]; [apply Hc in H | apply Hfl in H]; discriminate.
Qed.

(** The two orders of two events.  For two valid events whose canonical
    bytes differ, [anchor_events] over the sequence E1, E2 and over the
    sequence E2, E1 returns the SHA-256 digests of two different byte
    strings, the two concatenations of the canonical bytes.  Whether
    the two digests differ is a question about SHA-256, which this does
    not answer. *)
Theorem order_of_two_events_changes_the_hashed_bytes :
  forall (order : list string) (g12 g21 : gen) (E1 E2 : value)
         (c1 c2 : list byte),
    returns g12 = true -> events_of g12 = [E1; E2] ->
    returns g21 = true -> events_of g21 = [E2; E1] ->
    chunk_of order E1 c1 ->
    chunk_of order E2 c2 ->
    c1 <> c2 ->
    anchor order g12 = Some (Ok (hex (sha256_digest (c1 ++ c2)%list)))
    /\ anchor order g21 = Some (Ok (hex (sha256_digest (c2 ++ c1)%list)))
    /\ (c1 ++ c2)%list <> (c2 ++ c1)%list.
Proof.
  intros order g12 g21 E1 E2 c1 c2 Hr12 He12 Hr21 He21 H1 H2 Hne.
  assert (Hrun : forall g a b ca cb,
             returns g = true -> events_of g = [a; b] ->
             chunk_of order a ca -> chunk_of order b cb ->
             anchor order g = Some (Ok (hex (sha256_digest (ca ++ cb)%list)))).
  { intros g a b ca cb Hr He Ha Hb. unfold anchor.
    rewrite (@anchor_loop_exhausted order g sha256 [ca; cb] Hr)
      by (rewrite He; repeat constructor; assumption).
    rewrite hexdigest_stream. cbn [List.concat]. rewrite app_nil_r. reflexivity. }
  split; [apply Hrun with (a := E1) (b := E2); assumption|].
  split; [apply Hrun with (a := E2) (b := E1); assumption|].
  apply encodings_do_not_commute; [| |exact Hne].
  - exact (canonical_is_encoding _ _ H1).
  - exact (canonical_is_encoding _ _ H2).
Qed.

(** C9.  For every validated event with a floating-point number in one of
    the fourteen required fields, the encoding step refuses the event,
    and [anchor_events] over any sequence that holds the event ends with
    an exception instead of a digest. *)
Theorem float_aborts_anchor :
  forall (order : list string) (g : gen) (ev : value),
    Permutation order V1_FIELDS ->
    __check_event ev = Ok tt ->
    float_in_fields ev = true ->
    canonical order ev = Raise EncodingError
    /\ (In ev (events_of g) -> exists e, anchor order g = Some (Raise e)).
Proof.
  intros order g ev Hperm Hcheck Hfloat.
  pose proof (@float_refused_in_event order Hperm ev Hcheck Hfloat) as Hcan.
  split; [exact Hcan|]. intros Hin.
  apply in_split in Hin. destruct Hin as (pre & post & Hev).
  destruct (first_refused order pre)
    as [[chunks Hch]|(fed & x & rest & chunks & err & Hsplit & Hfed & Hx)].
  - exists EncodingError.
    exact (@anchor_of_loop order g _ _
             (@anchor_loop_abort order g sha256 pre ev post chunks _ Hev Hch Hcan)).
  - exists err.
    assert (Hev' : events_of g = (fed ++ x :: (rest ++ ev :: post))%list)
      by (rewrite Hev, Hsplit, <- app_assoc; reflexivity).
    exact (@anchor_of_loop order g _ _
             (@anchor_loop_abort order g sha256 fed x _ chunks err Hev' Hfed Hx)).
Qed.

(** C10.  The first request of [list_events] carries the five query
    parameters (mechanism, the two bounds of the window, page size and
    ordering); every later request carries one parameter only, the
    continuation token of the response before it, so none of the five
    is sent again. *)
Theorem later_pages_send_only_token :
  forall (St : Type) (http_get : St -> request -> St * value) (fuel : nat)
         (st : St) (start_time end_time fqdn auth_token : string),
    match exchanges_of
            (list_events http_get fuel st start_time end_time fqdn auth_token)
    with
    | [] => fuel = 0
    | (rq, data) :: later =>
        params rq =
        [ ("proof_mechanism", VStr "SIMPLE_HASH");
          ("timestamp_accepted_since", VStr start_time);
          ("timestamp_accepted_before", VStr end_time);
          ("page_size", VInt 10);
          ("order_by", VStr "SIMPLEHASHV1") ]
        /\ chained data later
        /\ Forall
             (fun x =>
                forall k,
                  In k [ "proof_mechanism"; "timestamp_accepted_since";
                         "timestamp_accepted_before"; "page_size"; "order_by" ] ->
                  dict_get k (params (fst x)) = None)
             later
    end.
Proof.
  intros St http_get fuel st start_time end_time fqdn auth_token.
  unfold list_events.
  match goal with
  | |- context [list_events_loop http_get fuel st ?u ?p ?h] =>
      pose proof (@loop_exchanges St http_get u h fuel st p) as H;
      destruct (exchanges_of (list_events_loop http_get fuel st u p h))
        as [|[rq data] later]
  end; [exact H|].
  destruct H as [-> Hchain]. cbn [params].
  split; [reflexivity|]. split; [exact Hchain|].
  eapply Forall_impl; [|exact (chained_only_token _ _ Hchain)].
  intros [rq data'] [token Htok] k Hk. cbn [fst] in *. rewrite Htok.
  cbn [In] in Hk.
  repeat (destruct Hk as [<-|Hk]; [reflexivity|]). contradiction.
Qed.

(* ================================================================== *)
(** ** The properties at sample inputs *)

(** C1 at a page of two events, one CONFIRMED and one FAILED. *)
Lemma anchor_sha256_of_concatenation_witness :
  exists chunks,
    Forall2 (fun ev c => encode (projection ev) = Ok c)
            (events_of (source [confirmed; failed])) chunks
    /\ anchor V1_FIELDS (source [confirmed; failed])
       = Some (Ok (hex (sha256_digest (List.concat chunks)))).
Proof.
  apply (@anchor_sha256_of_concatenation V1_FIELDS (source [confirmed; failed])).
  - apply Permutation_refl.
  - reflexivity.
  - repeat constructor.
Defined.

(** C1, counterexample: a sequence of one event with the fourteen fields
    and the status CONFIRMED, for which [anchor_events] returns no
    digest; the event holds the number 1.5. *)
Lemma valid_event_with_float_is_refused :
  returns (source [with_float]) = true
  /\ Forall (fun ev => has_fields ev = true /\ terminal ev = true)
            (events_of (source [with_float]))
  /\ run V1_FIELDS [with_float] = Some (Raise EncodingError).
Proof.
  split; [reflexivity|]. split; [repeat constructor | reflexivity].
Qed.

(** C2 at a service whose only page is empty. *)
Lemma anchor_empty_source_witness :
  anchor V1_FIELDS (source [])
  = Some (Ok "e3b0c44298fc1c149afbf4c8996fb92427ae41e4649b934ca495991b7852b855").
Proof.
  apply (@anchor_empty_source V1_FIELDS (source [])); reflexivity.
Defined.

(** C2, counterexample: over an empty sequence [anchor_events] does not
    return the sixty-three digits of the statement. *)
Lemma empty_digest_is_not_truncated :
  returns (source []) = true
  /\ events_of (source []) = []
  /\ run V1_FIELDS []
     <> Some (Ok "e3b0c44298fc1c149afbf4c8996fb92427ae41e4649b934ca495991b7852b85").
Proof.
  split; [reflexivity|]. split; [reflexivity|].
  vm_compute. discriminate.
Qed.



(** C4 at a page of three events, the second one PENDING. *)
Lemma validation_failure_aborts_witness :
  exists fed rest chunks err,
    [confirmed] = (fed ++ rest)%list
    /\ Forall2 (chunk_of V1_FIELDS) fed chunks
    /\ anchor_loop V1_FIELDS sha256 (source [confirmed; pending; failed])
       = (fold_left update chunks sha256, Raised err)
    /\ anchor V1_FIELDS (source [confirmed; pending; failed]) = Some (Raise err)
    /\ ((rest = []
         /\ err = SimpleHashPendingEventFound
                    (VStr "assets/6a951b62/events/3") (VStr "PENDING"))
        \/ (rest <> [] /\ err = EncodingError))
    /\ (Forall (fun x => fields_encodable x = true) [confirmed] ->
        rest = []
        /\ err = SimpleHashPendingEventFound
                   (VStr "assets/6a951b62/events/3") (VStr "PENDING")).
Proof.
  apply (@validation_failure_aborts V1_FIELDS
           (source [confirmed; pending; failed]) [confirmed] [failed] pending).
  - apply Permutation_refl.
  - reflexivity.
  - repeat constructor.
  - reflexivity.
Defined.

(** C4, counterexample: the second event fails validation, the first
    passes it, and the exception raised is the refusal of the encoder for
    the first event, not the validation error of the second. *)
Lemma encoding_error_precedes_validation_error :
  __check_event with_float = Ok tt
  /\ __check_event pending
     = Raise (SimpleHashPendingEventFound
                (VStr "assets/6a951b62/events/3") (VStr "PENDING"))
  /\ events_of (source [with_float; pending]) = [with_float; pending]
  /\ run V1_FIELDS [with_float; pending] = Some (Raise EncodingError).
Proof.
  repeat split; reflexivity.
Qed.

(** C5 at an event without [identity]. *)
Lemma check_event_missing_identity_witness :
  __check_event (VDict [("confirmation_status", VStr "CONFIRMED")])
  = Raise (KeyError "identity").
Proof.
  apply check_event_missing_identity. reflexivity.
Defined.

(** C6 at a PENDING event without [identity]. *)
Lemma check_event_incomplete_witness :
  (forall identity status,
      __check_event (VDict [("confirmation_status", VStr "PENDING")])
      <> Raise (SimpleHashPendingEventFound identity status))
  /\ (forall identity,
        dict_get "identity" [("confirmation_status", VStr "PENDING")]
        = Some identity ->
        __check_event (VDict [("confirmation_status", VStr "PENDING")])
        = Raise (SimpleHashFieldMissing identity
                   (difference V1_FIELDS [("confirmation_status", VStr "PENDING")])))
  /\ (dict_get "identity" [("confirmation_status", VStr "PENDING")] = None ->
      __check_event (VDict [("confirmation_status", VStr "PENDING")])
      = Raise (KeyError "identity")).
Proof.
  apply check_event_incomplete. vm_compute. discriminate.
Defined.

(** C7 at a CONFIRMED event. *)
Lemma check_event_status_witness :
  ((exists identity found,
       __check_event confirmed = Raise (SimpleHashPendingEventFound identity found)
       /\ field "identity" confirmed = Some identity
       /\ field "confirmation_status" confirmed = Some found)
   <-> (field "confirmation_status" confirmed <> Some (VStr "CONFIRMED")
        /\ field "confirmation_status" confirmed <> Some (VStr "FAILED")))
  /\ (field "confirmation_status" confirmed = Some (VStr "CONFIRMED")
      \/ field "confirmation_status" confirmed = Some (VStr "FAILED") ->
      __check_event confirmed = Ok tt).
Proof.
  apply check_event_status. reflexivity.
Defined.

(** The two orders of a CONFIRMED and a FAILED event. *)
Lemma order_of_two_events_witness :
  anchor V1_FIELDS (source [confirmed; failed])
  = Some (Ok (hex (sha256_digest (bytes_of confirmed ++ bytes_of failed)%list)))
  /\ anchor V1_FIELDS (source [failed; confirmed])
     = Some (Ok (hex (sha256_digest (bytes_of failed ++ bytes_of confirmed)%list)))
  /\ (bytes_of confirmed ++ bytes_of failed)%list
     <> (bytes_of failed ++ bytes_of confirmed)%list.
Proof.
  apply (@order_of_two_events_changes_the_hashed_bytes V1_FIELDS
           (source [confirmed; failed]) (source [failed; confirmed])
           confirmed failed).
  - reflexivity.
  - reflexivity.
  - reflexivity.
  - reflexivity.
  - vm_compute. reflexivity.
  - vm_compute. reflexivity.
  - vm_compute. discriminate.
Defined.

(** Two distinct valid events, one being the other with its keys in
    another order and one more key, for which both sequences give the
    same digest. *)
Lemma distinct_events_same_digest :
  confirmed <> reordered confirmed
  /\ __check_event confirmed = Ok tt
  /\ __check_event (reordered confirmed) = Ok tt
  /\ run V1_FIELDS [confirmed; reordered confirmed]
     = run V1_FIELDS [reordered confirmed; confirmed]
  /\ exists digest, run V1_FIELDS [confirmed; reordered confirmed] = Some (Ok digest).
Proof.
  split; [vm_compute; discriminate|].
  split; [reflexivity|]. split; [reflexivity|].
  split; [vm_compute; reflexivity|].
  eexists. vm_compute. reflexivity.
Qed.

(** C9 at a page whose second event holds the number 1.5. *)
Lemma float_aborts_anchor_witness :
  canonical V1_FIELDS with_float = Raise EncodingError
  /\ (In with_float (events_of (source [confirmed; with_float])) ->
      exists e, anchor V1_FIELDS (source [confirmed; with_float]) = Some (Raise e)).
Proof.
  apply float_aborts_anchor.
  - apply Permutation_refl.
  - reflexivity.
  - reflexivity.
Defined.

(* ================================================================== *)
(** ** Sample runs *)

Example encode_sample :
  encode (VList [VInt (-42); VInt 0; VBool true; VStr "";
                 VDict [("b", VInt 1); ("a", VList [])]])
  = Ok (list_byte_of_string "li-42ei0ei1e0:d1:ale1:bi1eee").
Proof. reflexivity. Qed.

Example py_eq_samples :
  py_eq (VBool true) (VInt 1) = true
  /\ py_eq (VInt 1) (VFloat (S754_finite false 1 0)) = true
  /\ py_eq (VInt 3) (VFloat (S754_finite false 3 0)) = true
  /\ py_eq (VInt 1) (VFloat (S754_finite false 3 (-1))) = false
  /\ py_eq (VFloat (S754_zero false)) (VFloat (S754_zero true)) = true
  /\ py_eq (VFloat S754_nan) (VFloat S754_nan) = false
  /\ py_eq (VFloat (S754_infinity false)) (VFloat (S754_infinity true)) = false
  /\ py_eq (VInt (2 ^ 53 + 1)) (VFloat (S754_finite false 1 53)) = false
  /\ py_eq VNone (VBool false) = false
  /\ py_eq (VInt 1) (VStr "1") = false
  /\ py_eq (VList [VInt 1; VInt 2]) (VList [VInt 2; VInt 1]) = false
  /\ py_eq (VDict [("a", VInt 1); ("b", VInt 2)])
           (VDict [("b", VInt 2); ("a", VInt 1)]) = true
  /\ py_eq (VDict [("a", VInt 1)]) (VDict [("a", VInt 1); ("b", VInt 2)]) = false
  /\ py_eq (VDict [("a", VDict [("x", VInt 1); ("y", VInt 2)])])
           (VDict [("a", VDict [("y", VInt 2);
                                ("x", VFloat (S754_finite false 1 0))])]) = true
  /\ py_eq (VList []) (VDict []) = false.
Proof. vm_compute. repeat split. Qed.

Example encode_refuses_null :
  encode (VDict [("a", VList [VStr "x"; VNone])]) = Raise EncodingError.
Proof. reflexivity. Qed.

Example check_event_names_missing_fields :
  __check_event (VDict [("identity", VStr "assets/1/events/9");
                      ("confirmation_status", VStr "PENDING");
                      ("from", VStr "0x0")])
  = Raise (SimpleHashFieldMissing (VStr "assets/1/events/9")
             [ "asset_identity"; "event_attributes"; "asset_attributes";
               "operation"; "behaviour"; "timestamp_declared";
               "timestamp_accepted"; "timestamp_committed";
               "principal_accepted"; "principal_declared";
               "tenant_identity" ]).
Proof. reflexivity. Qed.

Example three_pages_requests :
  map (fun x => params (fst x))
      (exchanges_of (list_events (three_pages [confirmed] [] [failed]) 5 0
                       "2023-02-23T00:00:00Z" "2023-02-24T00:00:00Z"
                       "app.rkvst.io" "token"))
  = [ [ ("proof_mechanism", VStr "SIMPLE_HASH");
        ("timestamp_accepted_since", VStr "2023-02-23T00:00:00Z");
        ("timestamp_accepted_before", VStr "2023-02-24T00:00:00Z");
        ("page_size", VInt 10);
        ("order_by", VStr "SIMPLEHASHV1") ];
      [ ("page_token", VStr "page-2") ];
      [ ("page_token", VStr "page-3") ] ].
Proof. reflexivity. Qed.

Example three_pages_anchor :
  anchor_events V1_FIELDS (three_pages [confirmed] [] [failed]) 5 0
    "2023-02-23T00:00:00Z" "2023-02-24T00:00:00Z" "app.rkvst.io" "token"
  = run V1_FIELDS [confirmed; failed].
Proof. vm_compute. reflexivity. Qed.

Example missing_events_key_after_first_page :
  anchor_events V1_FIELDS
    (fun (st : nat) (rq : request) =>
       (S st,
        match st with
        | 0 => VDict [("events", VList [confirmed]);
                      ("next_page_token", VStr "page-2")]
        | _ => VDict [("error", VStr "gone")]
        end)) 5 0
    "2023-02-23T00:00:00Z" "2023-02-24T00:00:00Z" "app.rkvst.io" "token"
  = Some (Raise SimpleHashFieldError).
Proof. reflexivity. Qed.

(* ================================================================== *)
(** ** Further facts about validation, redaction and the loop *)

Module MoreFacts.

Import Bencode Sha256 V1 Window.
Import PyFacts BencodeFacts V1Facts Sha256Facts LoopFacts.

Local Open Scope string_scope.

Lemma difference_agree (d1 d2 : dict) :
  agree (VDict d1) (VDict d2) ->
  difference V1_FIELDS d1 = difference V1_FIELDS d2.
Proof.
  intros Hag. unfold difference. apply filter_ext_in. intros k Hk.
  unfold dict_mem. specialize (Hag k Hk). cbn [field] in Hag.
  rewrite Hag. reflexivity.
Qed.

Lemma dict_get_project_entries (d : dict) (k : string) (order : list string) :
  In k order ->
  dict_get k (map (fun k' => (k', match dict_get k' d with
                                  | Some v => v
                                  | None => VNone
                                  end)) order)
  = Some (match dict_get k d with Some v => v | None => VNone end).
Proof.
  induction order as [|k' order IH]; intros Hin; [contradiction|].
  cbn [map dict_get].
  destruct (String.eqb_spec k k') as [->|Hne]; [reflexivity|].
  apply IH. destruct Hin as [->|Hin]; [contradiction | exact Hin].
Qed.

Lemma dict_get_outside (k : string) (order : list string) (f : string -> value) :
  ~ In k order -> dict_get k (map (fun k' => (k', f k')) order) = None.
Proof.
  induction order as [|k' order IH]; intros Hout; [reflexivity|].
  cbn [map dict_get].
  destruct (String.eqb_spec k k') as [->|Hne].
  - exfalso. apply Hout. left. reflexivity.
  - apply IH. intros Hin. apply Hout. right. exact Hin.
Qed.

Lemma project_missing (d : dict) (pre post : list string) (k : string) :
  (forall k', In k' pre -> exists v, dict_get k' d = Some v) ->
  dict_get k d = None ->
  project (pre ++ k :: post)%list d = Raise (KeyError k).
Proof.
  induction pre as [|k' pre IH]; intros Hpre Hk; cbn [app project].
  - rewrite (subscript_absent _ _ Hk). reflexivity.
  - destruct (Hpre k' (or_introl eq_refl)) as [v Hv].
    rewrite (subscript_get _ _ Hv). cbn [bind].
    rewrite IH; [reflexivity | | exact Hk].
    intros k'' Hin. apply Hpre. right. exact Hin.
Qed.

(** The canonical bytes of an event do not depend on the iteration order
    of the set of names. *)
Lemma canonical_order_irrelevant (order1 order2 : list string) (ev : value) :
  Permutation order1 V1_FIELDS -> Permutation order2 V1_FIELDS ->
  canonical order1 ev = canonical order2 ev.
Proof.
  intros H1 H2. destruct (__check_event ev) as [[]|e] eqn:Hc.
  - rewrite !canonical_projection by assumption. reflexivity.
  - unfold canonical. rewrite Hc. reflexivity.
Qed.

Lemma canonical_ok_check (order : list string) (ev : value) (c : list byte) :
  canonical order ev = Ok c -> __check_event ev = Ok tt.
Proof.
  unfold canonical. destruct (__check_event ev) as [[]|e]; [reflexivity|].
  discriminate.
Qed.

(** The loop sees a generator through its events and its end only. *)
Lemma anchor_loop_consume (order : list string) (g : gen) : forall hasher,
  anchor_loop order hasher g
  = consume order hasher (events_of g) (outcome_of g).
Proof.
  induction g as [rq data g IH|x g IH|e| |]; intros hasher;
    cbn [anchor_loop events_of outcome_of consume]; try reflexivity.
  - apply IH.
  - destruct (canonical order x); [apply IH | reflexivity].
Qed.

Lemma consume_exhausted (order : list string) (events : list value) :
  forall hasher h' last,
    consume order hasher events last = (h', Exhausted) ->
    last = Exhausted
    /\ exists chunks,
         Forall2 (chunk_of order) events chunks
         /\ h' = fold_left update chunks hasher.
Proof.
  induction events as [|ev events IH]; intros hasher h' last; cbn [consume].
  - intros [= <- ->]. split; [reflexivity|]. exists []. split; [constructor | reflexivity].
  - destruct (canonical order ev) as [c|e] eqn:Hc; [|discriminate].
    intros H. destruct (IH _ _ _ H) as (Hlast & chunks & Hch & ->).
    split; [exact Hlast|]. exists (c :: chunks). split; [|reflexivity].
    constructor; assumption.
Qed.

Lemma consume_raised (order : list string) (events : list value) (e : exn) :
  forall hasher,
    exists h' e', consume order hasher events (Raised e) = (h', Raised e')
      /\ ((exists chunks, Forall2 (chunk_of order) events chunks) -> e' = e).
Proof.
  induction events as [|ev events IH]; intros hasher; cbn [consume].
  - exists hasher, e. split; [reflexivity | intros _; reflexivity].
  - destruct (canonical order ev) as [c|e0] eqn:Hc.
    + destruct (IH (update hasher c)) as (h' & e' & Hrun & Hall).
      exists h', e'. split; [exact Hrun|].
      intros [chunks Hch]. apply Hall.
      inversion Hch; subst. eexists; eassumption.
    + exists hasher, e0. split; [reflexivity|].
      intros [chunks Hch]. inversion Hch as [|? c' ? ? Hx _]; subst.
      unfold chunk_of in Hx. congruence.
Qed.

(** Once an event is refused the loop has ended: what follows the
    events up to it, and the way their source would end, are not seen. *)
Lemma consume_refused (order : list string) (events : list value) :
  forallb (accepted order) events = false ->
  forall hasher,
    exists h' e, forall after last,
      consume order hasher (events ++ after)%list last = (h', Raised e).
Proof.
  unfold accepted.
  induction events as [|ev events IH]; cbn [forallb]; [discriminate|].
  intros H hasher. cbn [app consume].
  destruct (canonical order ev) as [c|e0].
  - cbn [andb] in H. exact (IH H (update hasher c)).
  - exists hasher, e0. reflexivity.
Qed.

Lemma outcome_returns (g : gen) : outcome_of g = Exhausted <-> returns g = true.
Proof.
  induction g as [rq data g IH|x g IH|e| |]; cbn [outcome_of returns];
    try exact IH; split; try discriminate; reflexivity.
Qed.

(** The chunks fed to the context are read back from their
    concatenation. *)
Lemma concat_encodings_inj (cs1 : list (list byte)) : forall cs2,
  Forall is_encoding cs1 -> Forall is_encoding cs2 ->
  List.concat cs1 = List.concat cs2 -> cs1 = cs2.
Proof.
  induction cs1 as [|b cs1 IH]; intros [|b' cs2] H1 H2 Heq;
    cbn [List.concat] in Heq.
  - reflexivity.
  - inversion H2 as [|? ? Hb' _]; subst.
    destruct (encoding_not_closing Hb') as (c & t & -> & _). discriminate.
  - inversion H1 as [|? ? Hb _]; subst.
    destruct (encoding_not_closing Hb) as (c & t & -> & _). discriminate.
  - inversion H1 as [|? ? Hb Hr1]; inversion H2 as [|? ? Hb' Hr2]; subst.
    destruct Hb as [v Hv].
    destruct (@encode_prefix_free v b Hv b' _ _ Hb' Heq) as [<- Hrest].
    f_equal. apply IH; assumption.
Qed.

Lemma check_agree (d1 d2 : dict) :
  agree (VDict d1) (VDict d2) ->
  __check_event (VDict d1) = __check_event (VDict d2).
Proof.
  intros Hag. cbn [__check_event]. rewrite (difference_agree Hag).
  assert (Hid : dict_get "identity" d1 = dict_get "identity" d2)
    by (apply (Hag "identity"); cbn; tauto).
  assert (Hst : dict_get "confirmation_status" d1
                = dict_get "confirmation_status" d2)
    by (apply (Hag "confirmation_status"); cbn; tauto).
  unfold subscript. rewrite Hid, Hst. reflexivity.
Qed.

Lemma consume_order (order1 order2 : list string) (events : list value) :
  Permutation order1 V1_FIELDS -> Permutation order2 V1_FIELDS ->
  forall hasher last,
    consume order1 hasher events last = consume order2 hasher events last.
Proof.
  intros H1 H2.
  induction events as [|ev events IH]; intros hasher last; cbn [consume];
    [reflexivity|].
  rewrite (canonical_order_irrelevant ev H1 H2).
  destruct (canonical order2 ev); [apply IH | reflexivity].
Qed.

Lemma eq_str_iff (v : value) (lit : string) :
  eq_str v lit = true <-> v = VStr lit.
Proof.
  destruct v; cbn [eq_str]; try (split; discriminate).
  rewrite String.eqb_eq. split; [intros ->; reflexivity | intros [= ->]; reflexivity].
Qed.

(** *** The pages of [list_events] *)

Lemma events_yield_all (items : list value) (g : gen) :
  events_of (yield_all items g) = (items ++ events_of g)%list.
Proof.
  unfold yield_all. induction items as [|x items IH]; [reflexivity|].
  cbn [fold_right events_of app]. rewrite IH. reflexivity.
Qed.

Lemma outcome_yield_all (items : list value) (g : gen) :
  outcome_of (yield_all items g) = outcome_of g.
Proof.
  unfold yield_all. induction items as [|x items IH]; [reflexivity | exact IH].
Qed.

Lemma page_items_well_formed (data : value) :
  well_formed data ->
  exists d events,
    data = VDict d /\ dict_get "events" d = Some events
    /\ iterate events = Ok (page_items data).
Proof.
  intros (d & events & items & -> & Hev & Hit).
  exists d, events. split; [reflexivity|]. split; [exact Hev|].
  cbn [page_items]. rewrite Hev, Hit. reflexivity.
Qed.

Lemma page_items_ill_formed (data : value) :
  ~ well_formed data -> page_items data = [].
Proof.
  intros Hill. destruct data as [| | | | | |d]; try reflexivity.
  cbn [page_items].
  destruct (dict_get "events" d) as [events|] eqn:Hev; [|reflexivity].
  destruct (iterate events) as [items|] eqn:Hit; [|reflexivity].
  exfalso. apply Hill. exists d, events, items. auto.
Qed.

Section Pages.

Variable St : Type.
Variable http_get : St -> request -> St * value.
Variable target : string.
Variable sent : dict.

(** One iteration of the loop: the request, then an exception for a
    response that is not well formed, the events of the page and the end
    for a response without a token, the events and the next iteration
    for a response with one. *)
Lemma loop_iteration (fuel : nat) (st : St) (query : dict) :
  exists st' data rest,
    http_get st (Request target query sent) = (st', data)
    /\ list_events_loop http_get (S fuel) st target query sent
       = Get (Request target query sent) data rest
    /\ ((~ well_formed data
         /\ exists e, rest = Throw e
            /\ (forall d, data = VDict d -> dict_get "events" d = None ->
                e = SimpleHashFieldError))
        \/ (well_formed data
            /\ truthy (next_page_token data) = false
            /\ rest = yield_all (page_items data) Return)
        \/ (well_formed data
            /\ truthy (next_page_token data) = true
            /\ rest = yield_all (page_items data)
                        (list_events_loop http_get fuel st' target
                           [("page_token", next_page_token data)] sent))).
Proof.
  cbn [list_events_loop].
  destruct (http_get st (Request target query sent)) as [st' data].
  exists st', data. eexists. split; [reflexivity|]. split; [reflexivity|].
  destruct data as [| | | | | |d];
    try (left; split;
         [intros (d & ? & ? & H & _); discriminate H
         |eexists; split; [reflexivity | intros d H; discriminate H]]).
  unfold subscript.
  destruct (dict_get "events" d) as [events|] eqn:Hev.
  - destruct (iterate events) as [items|e] eqn:Hit.
    + assert (Hwf : well_formed (VDict d)) by (exists d, events, items; auto).
      cbn [next_page_token page_items]. rewrite Hev, Hit.
      destruct (truthy match dict_get "next_page_token" d with
                       | Some t => t
                       | None => VNone
                       end) eqn:Htok; cbn [negb].
      * right. right. auto.
      * right. left. auto.
    + left. split.
      * intros (d' & events' & items' & [= <-] & Hev' & Hit'). congruence.
      * eexists. split; [reflexivity|]. intros d' [= <-] Hnone. congruence.
  - left. split.
    + intros (d' & events' & items' & [= <-] & Hev' & _). congruence.
    + eexists. split; [reflexivity | intros; reflexivity].
Qed.

Lemma loop_events_pages (fuel : nat) : forall st query,
  events_of (list_events_loop http_get fuel st target query sent)
  = flat_map (fun x => page_items (snd x))
      (exchanges_of (list_events_loop http_get fuel st target query sent)).
Proof.
  induction fuel as [|fuel IH]; intros st query; [reflexivity|].
  destruct (loop_iteration fuel st query)
    as (st' & data & rest & _ & -> & Hcase).
  cbn [events_of exchanges_of flat_map snd].
  destruct Hcase as [(Hill & e & -> & _)|[(Hwf & _ & ->)|(Hwf & _ & ->)]].
  - rewrite (page_items_ill_formed Hill). reflexivity.
  - rewrite events_yield_all, exchanges_yield_all. reflexivity.
  - rewrite events_yield_all, exchanges_yield_all, IH. reflexivity.
Qed.

Lemma loop_same_target (fuel : nat) : forall st query,
  Forall (fun x => url (fst x) = target /\ headers (fst x) = sent)
    (exchanges_of (list_events_loop http_get fuel st target query sent)).
Proof.
  induction fuel as [|fuel IH]; intros st query; [constructor|].
  destruct (loop_iteration fuel st query)
    as (st' & data & rest & _ & -> & Hcase).
  cbn [exchanges_of]. constructor; [split; reflexivity|].
  destruct Hcase as [(_ & e & -> & _)|[(_ & _ & ->)|(_ & _ & ->)]].
  - constructor.
  - rewrite exchanges_yield_all. constructor.
  - rewrite exchanges_yield_all. apply IH.
Qed.

Lemma loop_returns (fuel : nat) : forall st query,
  returns (list_events_loop http_get fuel st target query sent) = true <->
  exists init last,
    exchanges_of (list_events_loop http_get fuel st target query sent)
    = (init ++ [last])%list
    /\ well_formed (snd last)
    /\ truthy (next_page_token (snd last)) = false.
Proof.
  induction fuel as [|fuel IH]; intros st query.
  - cbn. split; [discriminate|]. intros (init & last & H & _).
    destruct init; discriminate.
  - destruct (loop_iteration fuel st query)
      as (st' & data & rest & _ & -> & Hcase).
    cbn [returns exchanges_of].
    destruct Hcase as [(Hill & e & -> & _)|[(Hwf & Htok & ->)|(Hwf & Htok & ->)]].
    + cbn. split; [discriminate|]. intros (init & last & H & Hwf & _).
      destruct init as [|x [|y init]]; try discriminate.
      injection H as <-. contradiction.
    + rewrite returns_yield_all, exchanges_yield_all. cbn.
      split; [|reflexivity]. intros _.
      exists [], (Request target query sent, data). auto.
    + rewrite returns_yield_all, exchanges_yield_all, IH. split.
      * intros (init & last & -> & Hl).
        exists ((Request target query sent, data) :: init), last. auto.
      * intros (init & last & H & Hl & Hf).
        destruct init as [|x init]; cbn [app] in H.
        -- injection H as <- _. cbn [snd] in Hf. congruence.
        -- injection H as _ H. exists init, last. auto.
Qed.

Lemma loop_followed (fuel : nat) : forall st query before x y after,
  exchanges_of (list_events_loop http_get fuel st target query sent)
  = (before ++ x :: y :: after)%list ->
  well_formed (snd x) /\ truthy (next_page_token (snd x)) = true.
Proof.
  induction fuel as [|fuel IH]; intros st query before x y after H.
  - destruct before; discriminate.
  - destruct (loop_iteration fuel st query)
      as (st' & data & rest & _ & Hloop & Hcase).
    rewrite Hloop in H. cbn [exchanges_of] in H.
    destruct Hcase as [(_ & e & -> & _)|[(_ & _ & ->)|(Hwf & Htok & ->)]];
      try rewrite exchanges_yield_all in H; cbn [exchanges_of] in H.
    + destruct before as [|? [|? ?]]; discriminate.
    + destruct before as [|? [|? ?]]; discriminate.
    + destruct before as [|z before]; cbn [app] in H.
      * injection H as <- _. auto.
      * injection H as _ H. exact (IH _ _ _ _ _ _ H).
Qed.

Lemma loop_missing_events (fuel : nat) : forall st query x d,
  In x (exchanges_of (list_events_loop http_get fuel st target query sent)) ->
  snd x = VDict d -> dict_get "events" d = None ->
  outcome_of (list_events_loop http_get fuel st target query sent)
  = Raised SimpleHashFieldError.
Proof.
  induction fuel as [|fuel IH]; intros st query x d Hin Hx Hnone;
    [contradiction|].
  destruct (loop_iteration fuel st query)
    as (st' & data & rest & _ & Hloop & Hcase).
  rewrite Hloop in *. cbn [exchanges_of outcome_of] in *.
  assert (Hwf : well_formed (snd x) -> False).
  { intros (d' & events & items & Hd & Hev & _). congruence. }
  destruct Hcase as [(_ & e & -> & He)|[(Hwf' & _ & ->)|(Hwf' & _ & ->)]].
  - destruct Hin as [<-|[]]. cbn [snd] in Hx.
    rewrite (He d Hx Hnone). reflexivity.
  - rewrite exchanges_yield_all in Hin.
    destruct Hin as [<-|[]]. contradiction.
  - rewrite exchanges_yield_all in Hin. rewrite outcome_yield_all.
    destruct Hin as [<-|Hin]; [contradiction|].
    exact (IH _ _ _ _ Hin Hx Hnone).
Qed.

Lemma loop_ill_formed (fuel : nat) : forall st query x,
  In x (exchanges_of (list_events_loop http_get fuel st target query sent)) ->
  ~ well_formed (snd x) ->
  exists e,
    outcome_of (list_events_loop http_get fuel st target query sent) = Raised e.
Proof.
  induction fuel as [|fuel IH]; intros st query x Hin Hill; [contradiction|].
  destruct (loop_iteration fuel st query)
    as (st' & data & rest & _ & Hloop & Hcase).
  rewrite Hloop in *. cbn [exchanges_of outcome_of] in *.
  destruct Hcase as [(_ & e & -> & _)|[(Hwf & _ & ->)|(Hwf & _ & ->)]].
  - exists e. reflexivity.
  - rewrite exchanges_yield_all in Hin.
    destruct Hin as [<-|[]]. contradiction.
  - rewrite exchanges_yield_all in Hin. rewrite outcome_yield_all.
    destruct Hin as [<-|Hin]; [contradiction|].
    exact (IH _ _ _ Hin Hill).
Qed.

End Pages.

End MoreFacts.

(* ================================================================== *)
(** ** Newlines around the content of a file *)

Module CliFacts.

Import Cli.

Local Open Scope string_scope.

Lemma lstrip_app (s t : string) :
  lstrip (s ++ t)
  = match lstrip s with
    | EmptyString => lstrip t
    | kept => kept ++ t
    end.
Proof.
  induction s as [|c s IH]; cbn [append lstrip]; [reflexivity|].
  destruct (Ascii.eqb c newline); [exact IH | reflexivity].
Qed.

Lemma lstrip_newlines (n : nat) (s : string) :
  lstrip (newlines n ++ s) = lstrip s.
Proof.
  induction n as [|n IH]; cbn [newlines append lstrip]; [reflexivity|].
  rewrite Ascii.eqb_refl. exact IH.
Qed.

Lemma rstrip_newlines (n : nat) (s : string) :
  rstrip (s ++ newlines n) = rstrip s.
Proof.
  induction s as [|c s IH]; cbn [append rstrip].
  - induction n as [|n IHn]; cbn [newlines rstrip]; [reflexivity|].
    rewrite IHn, Ascii.eqb_refl. reflexivity.
  - rewrite IH. reflexivity.
Qed.

Lemma strip_surrounding (a b : nat) (s : string) :
  strip (newlines a ++ s ++ newlines b) = strip s.
Proof.
  unfold strip. rewrite lstrip_newlines, lstrip_app.
  destruct (lstrip s) as [|c kept] eqn:Hs.
  - assert (Hall : lstrip (newlines b) = EmptyString).
    { clear. induction b as [|b IHb]; cbn [newlines lstrip]; [reflexivity|].
      rewrite Ascii.eqb_refl. exact IHb. }
    rewrite Hall. reflexivity.
  - apply rstrip_newlines.
Qed.

End CliFacts.

(* ================================================================== *)
(** ** Further properties of the code *)

Import Cli Window MoreFacts CliFacts.

(** X1.  Validation reads the fourteen required fields only: two
    dictionaries that agree on them are accepted alike or rejected with
    the same exception, whatever else they hold. *)
Theorem validation_reads_required_fields_only :
  forall d1 d2 : dict,
    agree (VDict d1) (VDict d2) ->
    __check_event (VDict d1) = __check_event (VDict d2).
Proof.
  intros d1 d2 Hag. apply check_agree. exact Hag.
Qed.

(** X2.  Validation accepts an event exactly when it is a dictionary
    that has every required key and whose confirmation status is the
    string CONFIRMED or the string FAILED. *)
Theorem validation_accepts_exactly :
  forall ev : value,
    __check_event ev = Ok tt <->
    exists d,
      ev = VDict d
      /\ (forall k, In k V1_FIELDS -> exists v, dict_get k d = Some v)
      /\ (dict_get "confirmation_status" d = Some (VStr "CONFIRMED")
          \/ dict_get "confirmation_status" d = Some (VStr "FAILED")).
Proof.
  intros ev. rewrite check_event_ok. split.
  - intros [Hf Ht]. destruct (has_fields_dict _ Hf) as (d & -> & _).
    exists d. split; [reflexivity|].
    split; [intros k Hk; exact (@has_fields_get d k Hf Hk)|].
    unfold terminal, field in Ht.
    destruct (dict_get "confirmation_status" d) as [status|]; [|discriminate].
    apply Bool.orb_true_iff in Ht.
    destruct Ht as [H|H]; apply eq_str_iff in H; subst; tauto.
  - intros (d & -> & Hall & Hst). split.
    + cbn [has_fields]. apply forallb_forall. intros k Hk.
      apply dict_mem_get. exact (Hall k Hk).
    + unfold terminal, field.
      destruct Hst as [-> | ->]; reflexivity.
Qed.

(** X3.  On a validated event redaction succeeds, and the dictionary it
    builds has the required names as its keys, each with the value the
    event has for it, and no other key. *)
Theorem redacted_event_has_exactly_required_fields :
  forall (order : list string) (ev : value),
    Permutation order V1_FIELDS ->
    __check_event ev = Ok tt ->
    exists r,
      redact_event order ev = Ok (VDict r)
      /\ keys r = order
      /\ (forall k, In k V1_FIELDS -> dict_get k r = field k ev)
      /\ (forall k, ~ In k V1_FIELDS -> dict_get k r = None).
Proof.
  intros order ev Hperm Hcheck.
  apply check_event_ok in Hcheck. destruct Hcheck as [Hf _].
  destruct (has_fields_dict _ Hf) as (d & -> & _).
  assert (Hin : forall k, In k order -> exists v, dict_get k d = Some v).
  { intros k Hk. apply has_fields_get; [exact Hf|].
    exact (Permutation_in _ Hperm Hk). }
  eexists. cbn [redact_event]. rewrite (project_ok d order Hin). cbn [bind].
  split; [reflexivity|]. split; [|split].
  - unfold keys. rewrite map_map. cbn [fst]. apply map_id.
  - intros k Hk. cbn [field].
    rewrite dict_get_project_entries
      by exact (Permutation_in _ (Permutation_sym Hperm) Hk).
    destruct (@has_fields_get d k Hf Hk) as [v ->]. reflexivity.
  - intros k Hk. apply dict_get_outside.
    intros Hin'. apply Hk. exact (Permutation_in _ Hperm Hin').
Qed.

(** X4.  Redaction keeps a validated event valid and is idempotent:
    the redacted event passes validation, and redacting it again gives
    what redacting the event gives. *)
Theorem redaction_idempotent :
  forall (order1 order2 : list string) (ev r : value),
    Permutation order1 V1_FIELDS ->
    Permutation order2 V1_FIELDS ->
    __check_event ev = Ok tt ->
    redact_event order1 ev = Ok r ->
    __check_event r = Ok tt
    /\ redact_event order2 r = redact_event order2 ev.
Proof.
  intros order1 order2 ev r H1 H2 Hcheck Hred.
  pose proof Hcheck as Hok.
  apply check_event_ok in Hok. destruct Hok as [Hf _].
  destruct (has_fields_dict _ Hf) as (d & -> & _).
  assert (Hin : forall order, Permutation order V1_FIELDS ->
                forall k, In k order -> exists v, dict_get k d = Some v).
  { intros order Hp k Hk. apply has_fields_get; [exact Hf|].
    exact (Permutation_in _ Hp Hk). }
  cbn [redact_event] in Hred.
  rewrite (project_ok d order1 (Hin order1 H1)) in Hred. cbn [bind] in Hred.
  injection Hred as <-.
  set (r := map (fun k => (k, match dict_get k d with
                             | Some v => v
                             | None => VNone
                             end)) order1).
  assert (Hag : agree (VDict r) (VDict d)).
  { intros k Hk. cbn [field]. subst r.
    rewrite dict_get_project_entries
      by exact (Permutation_in _ (Permutation_sym H1) Hk).
    destruct (@has_fields_get d k Hf Hk) as [v ->]. reflexivity. }
  split; [rewrite (check_agree Hag); exact Hcheck|].
  cbn [redact_event].
  rewrite (project_ok d order2 (Hin order2 H2)).
  rewrite project_ok.
  - cbn [bind]. do 2 f_equal. apply map_ext_in. intros k Hk.
    pose proof (Hag k (Permutation_in _ H2 Hk)) as Hk'.
    cbn [field] in Hk'. rewrite Hk'. reflexivity.
  - intros k Hk. specialize (Hag k (Permutation_in _ H2 Hk)).
    cbn [field] in Hag. rewrite Hag. exact (Hin order2 H2 k Hk).
Qed.

(** X5.  Redaction of a dictionary that lacks a required key raises
    [KeyError] for the first such key in the iteration order. *)
Theorem redaction_of_incomplete_event_raises_KeyError :
  forall (pre post : list string) (k : string) (d : dict),
    (forall k', In k' pre -> exists v, dict_get k' d = Some v) ->
    dict_get k d = None ->
    redact_event (pre ++ k :: post)%list (VDict d) = Raise (KeyError k).
Proof.
  intros pre post k d Hpre Hk. cbn [redact_event].
  rewrite (@project_missing d pre post k Hpre Hk). reflexivity.
Qed.

(** X6.  The result of [anchor_events] does not depend on the order in
    which the interpreter iterates over the set [V1_FIELDS]: the digest
    or the exception is the same under any two orders. *)
Theorem anchor_independent_of_set_order :
  forall (order1 order2 : list string) (St : Type)
         (http_get : St -> request -> St * value) (fuel : nat) (st : St)
         (start_time end_time fqdn auth_token : string),
    Permutation order1 V1_FIELDS ->
    Permutation order2 V1_FIELDS ->
    anchor_events order1 http_get fuel st start_time end_time fqdn auth_token
    = anchor_events order2 http_get fuel st start_time end_time fqdn auth_token.
Proof.
  intros order1 order2 St http_get fuel st a b c d H1 H2.
  unfold anchor_events, anchor.
  rewrite !anchor_loop_consume, (consume_order _ H1 H2). reflexivity.
Qed.

(** X7.  The result of [anchor_events] depends on the generator only
    through the sequence of events it yields and the way it ends: how
    the service cuts the events into pages does not matter. *)
Theorem anchor_depends_on_events_only :
  forall (order : list string) (g1 g2 : gen),
    events_of g1 = events_of g2 ->
    outcome_of g1 = outcome_of g2 ->
    anchor order g1 = anchor order g2.
Proof.
  intros order g1 g2 Hev Hout. unfold anchor.
  rewrite !anchor_loop_consume, Hev, Hout. reflexivity.
Qed.

(** X8.  [anchor_events] returns a digest only when the source ended
    normally and every event it yielded passed validation (all fourteen
    fields, status CONFIRMED or FAILED) and was encoded; the digest is
    then the hash of all their chunks. *)
Theorem digest_only_over_validated_window :
  forall (order : list string) (g : gen) (digest : string),
    anchor order g = Some (Ok digest) ->
    returns g = true
    /\ Forall (fun ev => has_fields ev = true /\ terminal ev = true) (events_of g)
    /\ exists chunks,
         Forall2 (chunk_of order) (events_of g) chunks
         /\ digest = hex (sha256_digest (List.concat chunks)).
Proof.
  intros order g digest. unfold anchor. rewrite anchor_loop_consume.
  destruct (consume order sha256 (events_of g) (outcome_of g)) as [h how] eqn:Hrun.
  destruct how; try discriminate. intros [= <-].
  destruct (consume_exhausted _ _ _ _ Hrun) as (Hend & chunks & Hch & ->).
  split; [apply outcome_returns; exact Hend|]. split.
  - clear - Hch. induction Hch as [|ev c evs cs Hc _ IH]; constructor; [|exact IH].
    apply check_event_ok. exact (canonical_ok_check _ _ Hc).
  - exists chunks. split; [exact Hch | apply hexdigest_stream].
Qed.

(** X9.  The bytes fed to the hash determine the chunks: two sequences
    of events whose chunks concatenate to the same bytes have the same
    chunks, one by one, although nothing separates them in the stream. *)
Theorem hashed_bytes_determine_chunks :
  forall (order : list string) (evs1 evs2 : list value)
         (cs1 cs2 : list (list byte)),
    Forall2 (chunk_of order) evs1 cs1 ->
    Forall2 (chunk_of order) evs2 cs2 ->
    List.concat cs1 = List.concat cs2 ->
    cs1 = cs2.
Proof.
  intros order evs1 evs2 cs1 cs2 H1 H2 Heq.
  apply concat_encodings_inj; [| |exact Heq].
  - clear - H1. induction H1 as [|ev c evs cs Hc _ IH]; constructor; [|exact IH].
    exact (canonical_is_encoding _ _ Hc).
  - clear - H2. induction H2 as [|ev c evs cs Hc _ IH]; constructor; [|exact IH].
    exact (canonical_is_encoding _ _ Hc).
Qed.

(** X10.  The events [list_events] yields are exactly the items of the
    [events] entries of the responses it received, page after page and
    in the order of each page: none is dropped, repeated or moved. *)
Theorem events_are_the_items_of_the_pages :
  forall (St : Type) (http_get : St -> request -> St * value) (fuel : nat)
         (st : St) (start_time end_time fqdn auth_token : string),
    events_of (list_events http_get fuel st start_time end_time fqdn auth_token)
    = flat_map (fun x => page_items (snd x))
        (exchanges_of
           (list_events http_get fuel st start_time end_time fqdn auth_token)).
Proof.
  intros. unfold list_events. apply loop_events_pages.
Qed.

(** X11.  Every request of [list_events], the first and the later ones,
    goes to the events endpoint of the host and carries the same two
    headers, among them the bearer token. *)
Theorem every_request_same_url_and_headers :
  forall (St : Type) (http_get : St -> request -> St * value) (fuel : nat)
         (st : St) (start_time end_time fqdn auth_token : string),
    Forall
      (fun x =>
         url (fst x) = "https://" ++ fqdn ++ "/archivist/v2/assets/-/events"
         /\ headers (fst x)
            = [ ("Content-Type", VStr "application/json");
                ("Authorization", VStr ("Bearer " ++ auth_token)) ])
      (exchanges_of
         (list_events http_get fuel st start_time end_time fqdn auth_token)).
Proof.
  intros. unfold list_events. apply loop_same_target.
Qed.

(** X12.  [list_events] ends normally exactly when its last response is
    well formed and carries no continuation token (none, or one that is
    empty or otherwise false); and it asks for a further page only after
    a well-formed response that carries one. *)
Theorem list_events_ends_at_page_without_token :
  forall (St : Type) (http_get : St -> request -> St * value) (fuel : nat)
         (st : St) (start_time end_time fqdn auth_token : string),
    (returns (list_events http_get fuel st start_time end_time fqdn auth_token)
     = true
     <-> exists init last,
           exchanges_of
             (list_events http_get fuel st start_time end_time fqdn auth_token)
           = (init ++ [last])%list
           /\ well_formed (snd last)
           /\ truthy (next_page_token (snd last)) = false)
    /\ (forall before x y after,
          exchanges_of
            (list_events http_get fuel st start_time end_time fqdn auth_token)
          = (before ++ x :: y :: after)%list ->
          well_formed (snd x) /\ truthy (next_page_token (snd x)) = true).
Proof.
  intros. unfold list_events. split.
  - apply loop_returns.
  - intros before x y after H. eapply loop_followed. exact H.
Qed.

(** X13.  When a response has no [events] entry, [anchor_events] raises
    an exception and returns no digest, even after pages that were
    hashed; the exception is [SimpleHashFieldError] when every event
    yielded before passed validation and encoding. *)
Theorem missing_events_entry_raises :
  forall (order : list string) (St : Type)
         (http_get : St -> request -> St * value) (fuel : nat) (st : St)
         (start_time end_time fqdn auth_token : string)
         (x : request * value) (d : dict),
    In x (exchanges_of
            (list_events http_get fuel st start_time end_time fqdn auth_token)) ->
    snd x = VDict d ->
    dict_get "events" d = None ->
    exists e,
      anchor_events order http_get fuel st start_time end_time fqdn auth_token
      = Some (Raise e)
      /\ ((exists chunks,
             Forall2 (chunk_of order)
               (events_of
                  (list_events http_get fuel st start_time end_time fqdn auth_token))
               chunks) ->
          e = SimpleHashFieldError).
Proof.
  intros order St http_get fuel st a b c t x d Hin Hx Hnone.
  unfold anchor_events, anchor. rewrite anchor_loop_consume.
  unfold list_events in *.
  erewrite loop_missing_events; [|exact Hin|exact Hx|exact Hnone].
  match goal with
  | |- context [consume order sha256 ?evs (Raised ?e0)] =>
      destruct (consume_raised order evs e0 sha256) as (h' & e' & Hrun & Hall)
  end.
  rewrite Hrun. exists e'. split; [reflexivity | exact Hall].
Qed.

(** X14.  When a token file is given, [main] never uses the client
    credentials: it makes no token request and opens no other file, and
    it behaves alike whatever [--client-id] and [--client-secret-file]
    are and whatever the token endpoint would answer. *)
Theorem token_file_takes_precedence :
  forall (order : list string) (St : Type)
         (http_get : St -> request -> St * value)
         (http_post http_post' : St -> post_request -> St * value)
         (read_file : string -> option string) (str_other : value -> string)
         (fuel : nat) (st : St) (args : namespace) (path : string)
         (id' secret' : option string),
    given (auth_token_file args) = Some path ->
    main order http_get http_post read_file str_other fuel st args
    = main order http_get http_post' read_file str_other fuel st
        (Namespace (start_time args) (end_time args) (fqdn args)
                   (auth_token_file args) id' secret')
    /\ (forall rq,
          ~ In (Posted rq)
               (fst (main order http_get http_post read_file str_other fuel st args)))
    /\ (forall p,
          In (Opened p)
             (fst (main order http_get http_post read_file str_other fuel st args)) ->
          p = path).
Proof.
  intros order St http_get http_post http_post' read_file str_other fuel st
         args path id' secret' Hgiven.
  unfold main. cbn [start_time end_time fqdn auth_token_file]. rewrite Hgiven.
  destruct (read_file path) as [text|].
  - unfold anchor_and_print. cbn [start_time end_time].
    destruct (anchor_events order http_get fuel st (start_time args)
                (end_time args) _ (strip text)) as [[digest|e]|];
      (split; [reflexivity|]); split.
    all: try (intros rq [H|[H|[H|[]]]]; discriminate H).
    all: try (intros rq [H|[H|[]]]; discriminate H).
    all: try (intros p [H|[H|[H|[]]]]; try discriminate H; congruence).
    all: try (intros p [H|[H|[]]]; try discriminate H; congruence).
  - split; [reflexivity|]. split.
    + intros rq [H|[]]. discriminate H.
    + intros p [H|[]]. congruence.
Qed.

(** X15.  [main] raises [SimpleHashClientAuthError] exactly when no
    token file is given (the option is absent or empty) and the client
    id or the client secret file is absent; it has then opened no file,
    made no request and printed nothing. *)
Theorem client_auth_error_exactly_without_credentials :
  forall (order : list string) (St : Type)
         (http_get : St -> request -> St * value)
         (http_post : St -> post_request -> St * value)
         (read_file : string -> option string) (str_other : value -> string)
         (fuel : nat) (st : St) (args : namespace),
    (snd (main order http_get http_post read_file str_other fuel st args)
     = Failed SimpleHashClientAuthError
     <-> given (auth_token_file args) = None
         /\ (client_id args = None \/ client_secret_file args = None))
    /\ (snd (main order http_get http_post read_file str_other fuel st args)
        = Failed SimpleHashClientAuthError ->
        fst (main order http_get http_post read_file str_other fuel st args) = []).
Proof.
  intros order St http_get http_post read_file str_other fuel st args.
  unfold main, anchor_and_print, get_auth_token.
  destruct (given (auth_token_file args)) as [path|].
  - destruct (read_file path) as [text|];
      [destruct (anchor_events order http_get fuel st (start_time args)
                   (end_time args) _ (strip text)) as [[digest|e]|]|];
      cbn [fst snd]; (split; [split|]);
      try discriminate; intros [H _]; discriminate H.
  - destruct (client_id args) as [id|]; destruct (client_secret_file args) as [path|];
      cbn [fst snd]; try (split; [split; [intros _; auto | reflexivity] | reflexivity]).
    destruct (read_file path) as [text|].
    + destruct (http_post st _) as [st' data].
      destruct (match data with
                | VDict d => subscript d "access_token"
                | _ => Raise TypeError
                end) as [token|e].
      * destruct (anchor_events order http_get fuel st' (start_time args)
                    (end_time args) _ (format str_other token)) as [[digest|e]|];
          cbn [fst snd]; (split; [split|]);
          try discriminate; intros [_ [H|H]]; discriminate H.
      * cbn [fst snd]. split; [split|]; try discriminate.
        intros [_ [H|H]]; discriminate H.
    + cbn [fst snd]. split; [split|]; try discriminate.
      intros [_ [H|H]]; discriminate H.
Qed.

(** X16.  [main] prints a line exactly when it returns normally, and
    the line is the digest [anchor_events] returned for the token it was
    called with: nothing is printed when an exception is raised. *)
Theorem main_prints_the_returned_digest_only :
  forall (order : list string) (St : Type)
         (http_get : St -> request -> St * value)
         (http_post : St -> post_request -> St * value)
         (read_file : string -> option string) (str_other : value -> string)
         (fuel : nat) (st : St) (args : namespace),
    (snd (main order http_get http_post read_file str_other fuel st args)
     = Returned
     <-> exists line,
           In (Printed line)
              (fst (main order http_get http_post read_file str_other fuel st args)))
    /\ (forall line,
          In (Printed line)
             (fst (main order http_get http_post read_file str_other fuel st args)) ->
          exists st' auth_token,
            In (Anchored auth_token)
               (fst (main order http_get http_post read_file str_other fuel st args))
            /\ anchor_events order http_get fuel st'
                 (start_time args) (end_time args)
                 match fqdn args with
                 | Some f => f
                 | None => "app.rkvst.io"
                 end
                 auth_token
               = Some (Ok line)).
Proof.
  intros order St http_get http_post read_file str_other fuel st args.
  unfold main, anchor_and_print, get_auth_token.
  set (host := match fqdn args with Some f => f | None => "app.rkvst.io" end).
  assert (Hrun : forall (pre : list effect) st' tok,
             (forall line, ~ In (Printed line) pre) ->
             let r := let (effects, how) :=
                        match anchor_events order http_get fuel st'
                                (start_time args) (end_time args) host tok with
                        | Some (Ok anchor) => ([Anchored tok; Printed anchor], Returned)
                        | Some (Raise e) => ([Anchored tok], Failed (Uncaught e))
                        | None => ([Anchored tok], NotEnded)
                        end in ((pre ++ effects)%list, how) in
             (snd r = Returned <-> exists line, In (Printed line) (fst r))
             /\ (forall line, In (Printed line) (fst r) ->
                 exists st'' auth_token,
                   In (Anchored auth_token) (fst r)
                   /\ anchor_events order http_get fuel st''
                        (start_time args) (end_time args) host auth_token
                      = Some (Ok line))).
  { intros pre st' tok Hpre.
    destruct (anchor_events order http_get fuel st' (start_time args)
                (end_time args) host tok) as [[digest|e]|] eqn:Han;
      cbn [fst snd]; split.
    - split; [|reflexivity]. intros _. exists digest.
      apply in_or_app. right. right. left. reflexivity.
    - intros line Hin. apply in_app_or in Hin.
      destruct Hin as [Hin|[Hin|[Hin|[]]]];
        [exfalso; exact (Hpre _ Hin) | discriminate Hin |].
      injection Hin as <-. exists st', tok. split; [|exact Han].
      apply in_or_app. right. left. reflexivity.
    - split; [discriminate|]. intros [line Hin]. apply in_app_or in Hin.
      destruct Hin as [Hin|[Hin|[]]]; [exfalso; exact (Hpre _ Hin) | discriminate Hin].
    - intros line Hin. apply in_app_or in Hin.
      destruct Hin as [Hin|[Hin|[]]]; [exfalso; exact (Hpre _ Hin) | discriminate Hin].
    - split; [discriminate|]. intros [line Hin]. apply in_app_or in Hin.
      destruct Hin as [Hin|[Hin|[]]]; [exfalso; exact (Hpre _ Hin) | discriminate Hin].
    - intros line Hin. apply in_app_or in Hin.
      destruct Hin as [Hin|[Hin|[]]]; [exfalso; exact (Hpre _ Hin) | discriminate Hin]. }
  assert (Hfail : forall (effects : list effect) (e : main_exn),
             (forall line, ~ In (Printed line) effects) ->
             (Failed e = Returned <-> exists line, In (Printed line) effects)
             /\ (forall line, In (Printed line) effects ->
                 exists st'' auth_token,
                   In (Anchored auth_token) effects
                   /\ anchor_events order http_get fuel st''
                        (start_time args) (end_time args) host auth_token
                      = Some (Ok line))).
  { intros effects e Hnone. split.
    - split; [discriminate|]. intros [line Hin]. exfalso. exact (Hnone _ Hin).
    - intros line Hin. exfalso. exact (Hnone _ Hin). }
  destruct (given (auth_token_file args)) as [path|].
  - destruct (read_file path) as [text|].
    + specialize (Hrun [Opened path] st (strip text)).
      cbn zeta in Hrun. cbn [app] in Hrun.
      destruct (anchor_events order http_get fuel st (start_time args)
                  (end_time args) host (strip text)) as [[digest|e]|];
        apply Hrun; intros line [H|[]]; discriminate H.
    + apply Hfail. intros line [H|[]]. discriminate H.
  - destruct (client_id args) as [id|]; destruct (client_secret_file args) as [path|];
      try (apply Hfail; intros line []).
    destruct (read_file path) as [text|].
    + destruct (http_post st _) as [st' data] eqn:Hpost.
      destruct (match data with
                | VDict d => subscript d "access_token"
                | _ => Raise TypeError
                end) as [token|e].
      * specialize (Hrun [Opened path; Posted
                            (Post ("https://" ++ host ++ "/archivist/iam/v1/appidp/token")
                               [("grant_type", VStr "client_credentials");
                                ("client_id", VStr id);
                                ("client_secret", VStr (strip text))])]
                         st' (format str_other token)).
        cbn zeta in Hrun. cbn [app] in Hrun.
        destruct (anchor_events order http_get fuel st' (start_time args)
                    (end_time args) host (format str_other token)) as [[digest|e]|];
          apply Hrun; intros line [H|[H|[]]]; discriminate H.
      * apply Hfail. intros line [H|[H|[]]]; discriminate H.
    + apply Hfail. intros line [H|[]]. discriminate H.
Qed.

(** X17.  [main] reads its files up to the newlines around their
    content: with files that differ only by newlines before and after
    the content, it does the same requests and ends the same way. *)
Theorem surrounding_newlines_are_ignored :
  forall (order : list string) (St : Type)
         (http_get : St -> request -> St * value)
         (http_post : St -> post_request -> St * value)
         (read1 read2 : string -> option string) (str_other : value -> string)
         (fuel : nat) (st : St) (args : namespace),
    (forall p,
        match read1 p with
        | Some text =>
            exists a b, read2 p = Some (newlines a ++ text ++ newlines b)
        | None => read2 p = None
        end) ->
    main order http_get http_post read1 str_other fuel st args
    = main order http_get http_post read2 str_other fuel st args.
Proof.
  intros order St http_get http_post read1 read2 str_other fuel st args Hfiles.
  unfold main.
  destruct (given (auth_token_file args)) as [path|].
  - specialize (Hfiles path). destruct (read1 path) as [text|].
    + destruct Hfiles as (a & b & ->). rewrite strip_surrounding. reflexivity.
    + rewrite Hfiles. reflexivity.
  - destruct (client_id args) as [id|]; [|reflexivity].
    destruct (client_secret_file args) as [path|]; [|reflexivity].
    specialize (Hfiles path). destruct (read1 path) as [text|].
    + destruct Hfiles as (a & b & ->). rewrite strip_surrounding. reflexivity.
    + rewrite Hfiles. reflexivity.
Qed.

(** X18.  Without a token file and with both client options, [main]
    reads the secret file and makes one token request, to the token
    endpoint of the host, with the grant type, the client id and the
    secret without its surrounding newlines.  When the answer has no
    [access_token], [main] raises [KeyError] without calling
    [anchor_events] or printing; when it has one that is a string,
    [anchor_events] is called with that token and no other. *)
Theorem client_credentials_request :
  forall (order : list string) (St : Type)
         (http_get : St -> request -> St * value)
         (http_post : St -> post_request -> St * value)
         (read_file : string -> option string) (str_other : value -> string)
         (fuel : nat) (st st' : St) (args : namespace)
         (id path text : string) (answer : dict),
    given (auth_token_file args) = None ->
    client_id args = Some id ->
    client_secret_file args = Some path ->
    read_file path = Some text ->
    http_post st
      (Post ("https://"
             ++ match fqdn args with Some f => f | None => "app.rkvst.io" end
             ++ "/archivist/iam/v1/appidp/token")
            [ ("grant_type", VStr "client_credentials");
              ("client_id", VStr id);
              ("client_secret", VStr (strip text)) ])
    = (st', VDict answer) ->
    firstn 2 (fst (main order http_get http_post read_file str_other fuel st args))
    = [ Opened path;
        Posted
          (Post ("https://"
                 ++ match fqdn args with Some f => f | None => "app.rkvst.io" end
                 ++ "/archivist/iam/v1/appidp/token")
                [ ("grant_type", VStr "client_credentials");
                  ("client_id", VStr id);
                  ("client_secret", VStr (strip text)) ]) ]
    /\ (dict_get "access_token" answer = None ->
        main order http_get http_post read_file str_other fuel st args
        = ([ Opened path;
             Posted
               (Post ("https://"
                      ++ match fqdn args with Some f => f | None => "app.rkvst.io" end
                      ++ "/archivist/iam/v1/appidp/token")
                     [ ("grant_type", VStr "client_credentials");
                       ("client_id", VStr id);
                       ("client_secret", VStr (strip text)) ]) ],
           Failed (Uncaught (KeyError "access_token"))))
    /\ (forall token,
          dict_get "access_token" answer = Some (VStr token) ->
          forall auth_token,
            In (Anchored auth_token)
               (fst (main order http_get http_post read_file str_other fuel st args))
            <-> auth_token = token).
Proof.
  intros order St http_get http_post read_file str_other fuel st st' args
         id path text answer Hgiven Hid Hsecret Hread Hpost.
  unfold main, get_auth_token, anchor_and_print.
  rewrite Hgiven, Hid, Hsecret, Hread, Hpost. unfold subscript.
  destruct (dict_get "access_token" answer) as [tok|].
  - cbn [format].
    split; [|split; [discriminate|]].
    + destruct (anchor_events order http_get fuel st' (start_time args)
                  (end_time args) _ (format str_other tok)) as [[digest|e]|];
        reflexivity.
    + intros token [= ->] auth_token. cbn [format].
      destruct (anchor_events order http_get fuel st' (start_time args)
                  (end_time args) _ token) as [[digest|e]|]; cbn [fst In].
      all: split;
        [intros [H|[H|[H|H]]]; try discriminate H;
         try (injection H as <-; reflexivity);
         try (destruct H as [H|[]]; discriminate H); try contradiction
        |intros ->; right; right; left; reflexivity].
  - split; [reflexivity|]. split; [reflexivity | discriminate].
Qed.

(** X19.  When some response is not well formed (not a dictionary, no
    [events] entry, or an entry that cannot be iterated),
    [anchor_events] raises an exception and returns no digest. *)
Theorem ill_formed_response_raises :
  forall (order : list string) (St : Type)
         (http_get : St -> request -> St * value) (fuel : nat) (st : St)
         (start_time end_time fqdn auth_token : string)
         (x : request * value),
    In x (exchanges_of
            (list_events http_get fuel st start_time end_time fqdn auth_token)) ->
    ~ well_formed (snd x) ->
    exists e,
      anchor_events order http_get fuel st start_time end_time fqdn auth_token
      = Some (Raise e).
Proof.
  intros order St http_get fuel st a b c t x Hin Hill.
  unfold anchor_events, anchor. rewrite anchor_loop_consume.
  unfold list_events in *.
  destruct (loop_ill_formed _ _ _ _ _ _ _ Hin Hill) as [e0 Hout].
  rewrite Hout.
  match goal with
  | |- context [consume order sha256 ?evs (Raised e0)] =>
      destruct (consume_raised order evs e0 sha256) as (h' & e' & Hrun & _)
  end.
  rewrite Hrun. exists e'. reflexivity.
Qed.

(** X20.  Once a page holds an event on which validation or encoding
    fails, nothing the service answers afterwards has any influence on
    [anchor_events]: against two services whose exchanges are the same
    up to and including that page, it raises the same exception,
    whatever the later pages hold, however many there are and whether
    or not they are well formed. *)
Theorem later_pages_cannot_change_a_failure :
  forall (order : list string) (St1 St2 : Type)
         (get1 : St1 -> request -> St1 * value)
         (get2 : St2 -> request -> St2 * value)
         (fuel1 fuel2 : nat) (st1 : St1) (st2 : St2)
         (start_time end_time fqdn auth_token : string)
         (init : list (request * value)) (x : request * value)
         (rest1 rest2 : list (request * value)),
    exchanges_of
      (list_events get1 fuel1 st1 start_time end_time fqdn auth_token)
    = (init ++ x :: rest1)%list ->
    exchanges_of
      (list_events get2 fuel2 st2 start_time end_time fqdn auth_token)
    = (init ++ x :: rest2)%list ->
    forallb (accepted order) (page_items (snd x)) = false ->
    exists e,
      anchor_events order get1 fuel1 st1 start_time end_time fqdn auth_token
      = Some (Raise e)
      /\ anchor_events order get2 fuel2 st2 start_time end_time fqdn auth_token
         = Some (Raise e).
Proof.
  intros order St1 St2 get1 get2 fuel1 fuel2 st1 st2 a b c t
         init x rest1 rest2 Hex1 Hex2 Hx.
  set (seen := (flat_map (fun y => page_items (snd y)) init
                ++ page_items (snd x))%list).
  assert (Hseen : forallb (accepted order) seen = false).
  { unfold seen. rewrite forallb_app, Hx. apply Bool.andb_false_r. }
  destruct (consume_refused order seen Hseen sha256) as (h' & e & Hrun).
  assert (Hevents : forall (St : Type) (http_get : St -> request -> St * value)
                           fuel st rest,
             exchanges_of (list_events http_get fuel st a b c t)
             = (init ++ x :: rest)%list ->
             events_of (list_events http_get fuel st a b c t)
             = (seen ++ flat_map (fun y => page_items (snd y)) rest)%list).
  { intros St http_get fuel st rest Hex. unfold list_events in *.
    rewrite loop_events_pages, Hex, flat_map_app. cbn [flat_map].
    unfold seen. rewrite <- app_assoc. reflexivity. }
  exists e. unfold anchor_events, anchor. rewrite !anchor_loop_consume.
  rewrite (Hevents _ _ _ _ _ Hex1), (Hevents _ _ _ _ _ Hex2), !Hrun.
  split; reflexivity.
Qed.

(* ================================================================== *)
(** ** The further properties at sample inputs *)

Import MoreExamples.

(** X1 at a PENDING event and the same event with its keys in the
    opposite order after one more key. *)
Lemma validation_reads_required_fields_only_witness :
  __check_event (VDict (entries_of pending))
  = __check_event (VDict (("block_number", VInt 7) :: rev (entries_of pending))).
Proof.
  apply validation_reads_required_fields_only.
  intros k Hk. cbn [V1_FIELDS In] in Hk.
  repeat (destruct Hk as [<-|Hk]; [reflexivity|]). contradiction.
Defined.

(** X3 at a CONFIRMED event, the set iterated in the opposite order. *)
Lemma redacted_event_has_exactly_required_fields_witness :
  exists r,
    redact_event (rev V1_FIELDS) (reordered confirmed) = Ok (VDict r)
    /\ keys r = rev V1_FIELDS
    /\ (forall k, In k V1_FIELDS -> dict_get k r = field k (reordered confirmed))
    /\ (forall k, ~ In k V1_FIELDS -> dict_get k r = None).
Proof.
  apply redacted_event_has_exactly_required_fields.
  - apply Permutation_sym. apply Permutation_rev.
  - reflexivity.
Defined.

(** X4 at a CONFIRMED event with one more key. *)
Lemma redaction_idempotent_witness :
  __check_event (redacted (reordered confirmed)) = Ok tt
  /\ redact_event (rev V1_FIELDS) (redacted (reordered confirmed))
     = redact_event (rev V1_FIELDS) (reordered confirmed).
Proof.
  apply (@redaction_idempotent V1_FIELDS (rev V1_FIELDS)
           (reordered confirmed) (redacted (reordered confirmed))).
  - apply Permutation_refl.
  - apply Permutation_sym. apply Permutation_rev.
  - reflexivity.
  - reflexivity.
Defined.

(** X5 at a dictionary that has [identity] only. *)
Lemma redaction_of_incomplete_event_raises_KeyError_witness :
  redact_event (["identity"] ++ "asset_identity" :: skipn 2 V1_FIELDS)%list
    (VDict [("identity", VStr "assets/1/events/9")])
  = Raise (KeyError "asset_identity").
Proof.
  apply redaction_of_incomplete_event_raises_KeyError.
  - intros k [<-|[]]. eexists. reflexivity.
  - reflexivity.
Defined.

(** X6 at a page of two events, under the order of the source and the
    opposite order. *)
Lemma anchor_independent_of_set_order_witness :
  run V1_FIELDS [confirmed; failed] = run (rev V1_FIELDS) [confirmed; failed].
Proof.
  apply anchor_independent_of_set_order.
  - apply Permutation_refl.
  - apply Permutation_sym. apply Permutation_rev.
Defined.

(** X7 at two events served on one page and on three pages, the second
    of them empty. *)
Lemma anchor_depends_on_events_only_witness :
  anchor V1_FIELDS
    (list_events (three_pages [confirmed] [] [failed]) 5 0
       "2023-02-23T00:00:00Z" "2023-02-24T00:00:00Z" "app.rkvst.io" "token")
  = anchor V1_FIELDS (source [confirmed; failed]).
Proof.
  apply anchor_depends_on_events_only; reflexivity.
Defined.

(** X8 at a page of two events and the digest returned for it. *)
Lemma digest_only_over_validated_window_witness :
  returns (source [confirmed; failed]) = true
  /\ Forall (fun ev => has_fields ev = true /\ terminal ev = true)
            (events_of (source [confirmed; failed]))
  /\ exists chunks,
       Forall2 (chunk_of V1_FIELDS) (events_of (source [confirmed; failed])) chunks
       /\ "5388026f7cfe2932622aa1698b4f97a5240f295222abe03396b2ca3d4ddefa8b"
          = hex (sha256_digest (List.concat chunks)).
Proof.
  apply digest_only_over_validated_window.
  vm_compute. reflexivity.
Defined.

(** X9 at two sequences of different events with the same bytes. *)
Lemma hashed_bytes_determine_chunks_witness :
  [bytes_of confirmed; bytes_of failed]
  = [bytes_of (reordered confirmed); bytes_of failed].
Proof.
  apply (@hashed_bytes_determine_chunks V1_FIELDS
           [confirmed; failed] [reordered confirmed; failed]).
  - repeat constructor.
  - repeat constructor.
  - vm_compute. reflexivity.
Defined.

(** X13 at a service whose second response has no [events] entry. *)
Lemma missing_events_entry_raises_witness :
  exists e,
    anchor_events V1_FIELDS broken_second_page 5 0
      "2023-02-23T00:00:00Z" "2023-02-24T00:00:00Z" "app.rkvst.io" "token"
    = Some (Raise e)
    /\ ((exists chunks,
           Forall2 (chunk_of V1_FIELDS)
             (events_of
                (list_events broken_second_page 5 0
                   "2023-02-23T00:00:00Z" "2023-02-24T00:00:00Z"
                   "app.rkvst.io" "token"))
             chunks) ->
        e = SimpleHashFieldError).
Proof.
  apply (@missing_events_entry_raises V1_FIELDS nat broken_second_page 5 0
           "2023-02-23T00:00:00Z" "2023-02-24T00:00:00Z" "app.rkvst.io" "token"
           (Request "https://app.rkvst.io/archivist/v2/assets/-/events"
                    [("page_token", VStr "page-2")]
                    [("Content-Type", VStr "application/json");
                     ("Authorization", VStr "Bearer token")],
            VDict [("error", VStr "gone")])
           [("error", VStr "gone")]).
  - right. left. reflexivity.
  - reflexivity.
  - reflexivity.
Defined.

(** X19 at a service whose second response has no [events] entry. *)
Lemma ill_formed_response_raises_witness :
  exists e,
    anchor_events (rev V1_FIELDS) broken_second_page 5 0
      "2023-02-23T00:00:00Z" "2023-02-24T00:00:00Z" "app.rkvst.io" "token"
    = Some (Raise e).
Proof.
  apply (@ill_formed_response_raises (rev V1_FIELDS) nat broken_second_page 5 0
           "2023-02-23T00:00:00Z" "2023-02-24T00:00:00Z" "app.rkvst.io" "token"
           (Request "https://app.rkvst.io/archivist/v2/assets/-/events"
                    [("page_token", VStr "page-2")]
                    [("Content-Type", VStr "application/json");
                     ("Authorization", VStr "Bearer token")],
            VDict [("error", VStr "gone")])).
  - right. left. reflexivity.
  - intros (d & events & items & [= <-] & Hev & _). discriminate Hev.
Defined.

(** X20 at two services whose first page holds a PENDING event and a
    continuation token: one goes on with two more pages, the other
    answers with errors. *)
Lemma later_pages_cannot_change_a_failure_witness :
  exists e,
    anchor_events V1_FIELDS (three_pages [confirmed; pending] [failed] []) 5 0
      "2023-02-23T00:00:00Z" "2023-02-24T00:00:00Z" "app.rkvst.io" "token"
    = Some (Raise e)
    /\ anchor_events V1_FIELDS pending_then_gone 5 0
         "2023-02-23T00:00:00Z" "2023-02-24T00:00:00Z" "app.rkvst.io" "token"
       = Some (Raise e).
Proof.
  apply (@later_pages_cannot_change_a_failure V1_FIELDS nat nat
           (three_pages [confirmed; pending] [failed] []) pending_then_gone
           5 5 0 0
           "2023-02-23T00:00:00Z" "2023-02-24T00:00:00Z" "app.rkvst.io" "token"
           []
           (first_exchange pending_then_gone)
           (later_exchanges (three_pages [confirmed; pending] [failed] []))
           (later_exchanges pending_then_gone)).
  - vm_compute. reflexivity.
  - vm_compute. reflexivity.
  - vm_compute. reflexivity.
Defined.

(** X14 at a command line with a token file and both client options. *)
Lemma token_file_takes_precedence_witness :
  main V1_FIELDS (single_page [confirmed; failed]) granting files no_str 1 tt
       with_token_file
  = main V1_FIELDS (single_page [confirmed; failed]) refusing files no_str 1 tt
      (Namespace (start_time with_token_file) (end_time with_token_file)
                 (fqdn with_token_file) (auth_token_file with_token_file)
                 None None)
  /\ (forall rq,
        ~ In (Posted rq)
             (fst (main V1_FIELDS (single_page [confirmed; failed]) granting
                        files no_str 1 tt with_token_file)))
  /\ (forall p,
        In (Opened p)
           (fst (main V1_FIELDS (single_page [confirmed; failed]) granting
                      files no_str 1 tt with_token_file)) ->
        p = "token.txt").
Proof.
  apply token_file_takes_precedence. reflexivity.
Defined.

(** X17 at files with and without a final newline. *)
Lemma surrounding_newlines_are_ignored_witness :
  main V1_FIELDS (single_page [confirmed; failed]) granting bare_files no_str 1 tt
       with_credentials
  = main V1_FIELDS (single_page [confirmed; failed]) granting files no_str 1 tt
         with_credentials.
Proof.
  apply surrounding_newlines_are_ignored.
  intros p. unfold bare_files, files.
  destruct (String.eqb p "token.txt"); [exists 0, 1; reflexivity|].
  destruct (String.eqb p "secret.txt"); [exists 0, 1; reflexivity|].
  reflexivity.
Defined.

(** X18 at a command line with client credentials and a token endpoint
    that refuses. *)
Lemma client_credentials_request_witness :
  firstn 2 (fst (main V1_FIELDS (single_page [confirmed; failed]) refusing
                      files no_str 1 tt with_credentials))
  = [ Opened "secret.txt";
      Posted
        (Post "https://app.rkvst.io/archivist/iam/v1/appidp/token"
              [ ("grant_type", VStr "client_credentials");
                ("client_id", VStr "client");
                ("client_secret", VStr "s3cret") ]) ]
  /\ (dict_get "access_token" [("error", VStr "invalid_client")] = None ->
      main V1_FIELDS (single_page [confirmed; failed]) refusing files no_str 1 tt
           with_credentials
      = ([ Opened "secret.txt";
           Posted
             (Post "https://app.rkvst.io/archivist/iam/v1/appidp/token"
                   [ ("grant_type", VStr "client_credentials");
                     ("client_id", VStr "client");
                     ("client_secret", VStr "s3cret") ]) ],
         Failed (Uncaught (KeyError "access_token"))))
  /\ (forall token,
        dict_get "access_token" [("error", VStr "invalid_client")]
        = Some (VStr token) ->
        forall auth_token,
          In (Anchored auth_token)
             (fst (main V1_FIELDS (single_page [confirmed; failed]) refusing
                        files no_str 1 tt with_credentials))
          <-> auth_token = token).
Proof.
  apply (@client_credentials_request V1_FIELDS unit
           (single_page [confirmed; failed]) refusing files no_str 1 tt tt
           with_credentials "client" "secret.txt" ("s3cret" ++ newlines 1)
           [("error", VStr "invalid_client")]); reflexivity.
Defined.

Example main_with_token_file :
  main V1_FIELDS (single_page [confirmed; failed]) refusing files no_str 1 tt
       with_token_file
  = ([ Opened "token.txt"; Anchored "from-file";
       Printed "5388026f7cfe2932622aa1698b4f97a5240f295222abe03396b2ca3d4ddefa8b" ],
     Returned).
Proof. vm_compute. reflexivity. Qed.

Example main_with_granted_token :
  main V1_FIELDS (single_page [confirmed; pending]) granting files no_str 1 tt
       with_credentials
  = ([ Opened "secret.txt";
       Posted
         (Post "https://app.rkvst.io/archivist/iam/v1/appidp/token"
               [ ("grant_type", VStr "client_credentials");
                 ("client_id", VStr "client");
                 ("client_secret", VStr "s3cret") ]);
       Anchored "granted" ],
     Failed (Uncaught (SimpleHashPendingEventFound
                         (VStr "assets/6a951b62/events/3") (VStr "PENDING")))).
Proof. vm_compute. reflexivity. Qed.

Example strip_keeps_inner_newlines :
  strip (newlines 2 ++ "a" ++ newlines 1 ++ "b" ++ newlines 3)
  = "a" ++ newlines 1 ++ "b".
Proof. reflexivity. Qed.

Example pending_on_first_page_then_errors :
  anchor_events V1_FIELDS pending_then_gone 5 0
    "2023-02-23T00:00:00Z" "2023-02-24T00:00:00Z" "app.rkvst.io" "token"
  = Some (Raise (SimpleHashPendingEventFound
                   (VStr "assets/6a951b62/events/3") (VStr "PENDING")))
  /\ List.length (later_exchanges (three_pages [confirmed; pending] [failed] [])) = 2
  /\ List.length (later_exchanges pending_then_gone) = 1.
Proof. vm_compute. repeat split. Qed.
